(** * Scene aggregation, ray-query dispatch and emitter sampling

    A shallow embedding of [src/librender/scene.cpp] (class [Scene<Float, Spectrum>]).

    The class is a template over the numeric type [Float] and the colour type
    [Spectrum]; the embedding is generic in the same way: the arithmetic the
    template uses is an interface ([FloatOps], [SpectrumOps]) and every
    definition below is written once against it.  Two instances are given:
    the rationals (exact, executable) and the reals (for the analytic claims
    about the default camera and about normalisation).

    A batch ("packet") of values is a function from the lane number to the
    value of that lane; the lanes of a packet are [0 .. packet_size - 1]. *)

From Stdlib Require Import List Bool Arith Lia String.
From Stdlib Require Import QArith Qabs Qminmax.
From Stdlib Require Import Reals Lra.
From Stdlib Require Import Permutation.
Import ListNotations.

Local Open Scope string_scope.
Local Open Scope list_scope.
Local Open Scope nat_scope.

(** ** The numeric interface of the template *)

(** What the code asks of [Float]: literals, the four operations, [rcp],
    [abs], [min]/[max] and comparisons. *)
Class FloatOps (F : Type) := {
  flit : Q -> F;
  fadd : F -> F -> F;
  fsub : F -> F -> F;
  fmul : F -> F -> F;
  fdiv : F -> F -> F;
  frcp : F -> F;
  fabs : F -> F;
  fmin : F -> F -> F;
  fmax : F -> F -> F;
  fneq : F -> F -> bool;
  fltb : F -> F -> bool;
  fleb : F -> F -> bool
}.

(** [std::tan] and [math::Pi], used by the constructor only. *)
Class FloatTrig (F : Type) := {
  ftan : F -> F;
  Pi : F
}.

(** What the code asks of [Spectrum]: the broadcast of the literal [0.f]
    and multiplication by a [Float]. *)
Class SpectrumOps (F S : Type) := {
  spec_zero : S;
  spec_scale : S -> F -> S
}.

(** ** Errors: [Throw] and [NotImplementedError] *)

Inductive Exception : Type :=
| Throw (msg : string)
| NotImplementedError (what : string).

Definition Result (A : Type) : Type := (Exception + A)%type.

Definition ret {A : Type} (a : A) : Result A := inr a.
Definition raise {A : Type} (e : Exception) : Result A := inl e.
Definition bind {A B : Type} (m : Result A) (k : A -> Result B) : Result B :=
  match m with
  | inl e => inl e
  | inr a => k a
  end.

Notation "x <- m ;; k" := (bind m (fun x => k))
  (at level 61, m at next level, right associativity).

(** ** Compile-time configuration and the backend it selects *)

(** [is_cuda_array] is [is_cuda_array_v<Float>]; [MTS_USE_EMBREE] is the
    preprocessor switch of the same name; [packet_size] is the number of
    lanes of [Float].  [accel_supported] records whether the support the
    selected backend needs is present on the machine. *)
Record Config : Type := mkConfig {
  is_cuda_array : bool;
  MTS_USE_EMBREE : bool;
  packet_size : nat;
  accel_supported : bool
}.

Inductive AccelerationBackend : Type :=
| SoftwareStructure
| HardwareBVH
| GPUBackend.

Definition backend_of (cfg : Config) : AccelerationBackend :=
  if is_cuda_array cfg then GPUBackend
  else if MTS_USE_EMBREE cfg then HardwareBVH
  else SoftwareStructure.

(** ** Packets and masks *)

Definition Packet (A : Type) : Type := nat -> A.
Definition Mask : Type := Packet bool.

Definition lanes (cfg : Config) : list nat := seq 0 (packet_size cfg).

(** [any(mask)]: some lane of the packet is set. *)
Definition any (cfg : Config) (m : Mask) : bool := existsb m (lanes cfg).

(** [any_or<true>(mask)]: on a CUDA array the answer is [true] without
    looking at the mask, otherwise it is [any(mask)]. *)
Definition any_or_true (cfg : Config) (m : Mask) : bool :=
  if is_cuda_array cfg then true else any cfg m.

Section Variant.

Context {F : Type} {FO : FloatOps F}.
Context {Spectrum : Type} {SO : SpectrumOps F Spectrum}.
Context {Wavelength : Type}.
Context {SampleAux : Type} (aux_zero : SampleAux).
Context {FT : FloatTrig F}.

(** The constants [math::Epsilon<Float>] and [math::ShadowEpsilon<Float>]. *)
Context (Epsilon ShadowEpsilon : F).

(** ** Geometry and sampling records *)

Record Point2 : Type := mkPoint2 { p2_x : F; p2_y : F }.
Record Point3 : Type := mkPoint3 { p3_x : F; p3_y : F; p3_z : F }.
Definition Vector3 : Type := Point3.

Definition set_x (p : Point2) (v : F) : Point2 := mkPoint2 v (p2_y p).

Definition abs3 (p : Point3) : Point3 :=
  mkPoint3 (fabs (p3_x p)) (fabs (p3_y p)) (fabs (p3_z p)).

(** [hmax]: the largest component. *)
Definition hmax (p : Point3) : F := fmax (fmax (p3_x p) (p3_y p)) (p3_z p).

Record Interaction3f : Type := mkInteraction {
  it_p : Point3;
  it_time : F;
  it_wavelengths : Wavelength
}.

Record Ray3f : Type := mkRay {
  ray_o : Point3;
  ray_d : Vector3;
  ray_mint : F;
  ray_maxt : F;
  ray_time : F;
  ray_wavelengths : Wavelength
}.

(** The fields of [DirectionSample3f] the scene reads or writes ([d],
    [dist], [pdf]); the auxiliary, emitter-specific ones travel in [ds_aux]. *)
Record DirectionSample3f : Type := mkDS {
  ds_d : Vector3;
  ds_dist : F;
  ds_pdf : F;
  ds_aux : SampleAux
}.

Definition set_pdf (ds : DirectionSample3f) (v : F) : DirectionSample3f :=
  mkDS (ds_d ds) (ds_dist ds) v (ds_aux ds).

(** [zero<DirectionSample3f>()]: every field zero. *)
Definition DirectionSample3f_zero : DirectionSample3f :=
  mkDS (mkPoint3 (flit 0) (flit 0) (flit 0)) (flit 0) (flit 0) aux_zero.

(** Modelled from the spec: the value of a default-constructed
    [DirectionSample3f] (the struct is declared in [records.h], which is not
    part of the sources at hand).  The spec calls what an empty scene returns
    "a zero direction sample (zero pdf)". *)
Definition DirectionSample3f_default : DirectionSample3f := DirectionSample3f_zero.

(** ** Scene objects *)

(** Modelled from the spec: the axis-aligned bounding box [BoundingBox3f]
    ("axis-aligned box, lazily expanded, validity flag").  [None] is the
    box that is not valid (nothing has been added to it), [Some (lo, hi)] a
    valid box with its two corners. *)
Definition BoundingBox3f : Type := option (Point3 * Point3).

Definition min3 (a b : Point3) : Point3 :=
  mkPoint3 (fmin (p3_x a) (p3_x b)) (fmin (p3_y a) (p3_y b)) (fmin (p3_z a) (p3_z b)).
Definition max3 (a b : Point3) : Point3 :=
  mkPoint3 (fmax (p3_x a) (p3_x b)) (fmax (p3_y a) (p3_y b)) (fmax (p3_z a) (p3_z b)).

Definition bbox_expand (b other : BoundingBox3f) : BoundingBox3f :=
  match b, other with
  | None, _ => other
  | Some _, None => b
  | Some (lo, hi), Some (lo', hi') => Some (min3 lo lo', max3 hi hi')
  end.

Definition bbox_min (b : Point3 * Point3) : Point3 := fst b.

Definition bbox_extents (b : Point3 * Point3) : Vector3 :=
  mkPoint3 (fsub (p3_x (snd b)) (p3_x (fst b)))
           (fsub (p3_y (snd b)) (p3_y (fst b)))
           (fsub (p3_z (snd b)) (p3_z (fst b))).

Definition bbox_center (b : Point3 * Point3) : Point3 :=
  mkPoint3 (fmul (fadd (p3_x (snd b)) (p3_x (fst b))) (flit (1 # 2)))
           (fmul (fadd (p3_y (snd b)) (p3_y (fst b))) (flit (1 # 2)))
           (fmul (fadd (p3_z (snd b)) (p3_z (fst b))) (flit (1 # 2))).

(** [Properties]: a plugin name with named float and transform entries.
    A later [set_] of a name shadows an earlier one. *)
Inductive Transform4f : Type :=
| translate (v : Vector3).

Record Properties : Type := mkProperties {
  plugin_name : string;
  float_entries : list (string * F);
  transform_entries : list (string * Transform4f)
}.

Definition Properties_new (name : string) : Properties := mkProperties name [] [].

Definition set_float (key : string) (v : F) (p : Properties) : Properties :=
  mkProperties (plugin_name p) ((key, v) :: float_entries p) (transform_entries p).

Definition set_transform (key : string) (t : Transform4f) (p : Properties) : Properties :=
  mkProperties (plugin_name p) (float_entries p) ((key, t) :: transform_entries p).

Fixpoint lookup {A : Type} (key : string) (l : list (string * A)) : option A :=
  match l with
  | [] => None
  | (k, v) :: l' => if String.eqb k key then Some v else lookup key l'
  end.

Definition get_float (key : string) (p : Properties) : option F :=
  lookup key (float_entries p).
Definition get_transform (key : string) (p : Properties) : option Transform4f :=
  lookup key (transform_entries p).

(** A sensor and an integrator are plugin instances; what the scene knows
    of them is the properties they were created from. *)
Record Sensor : Type := mkSensor { sensor_props : Properties }.
Record Integrator : Type := mkIntegrator { integrator_props : Properties }.

(** [PluginManager::instance()->create_object<T>(props)]. *)
Definition create_sensor (props : Properties) : Sensor := mkSensor props.
Definition create_integrator (props : Properties) : Integrator := mkIntegrator props.

(** An emitter: its environment flag and its own [sample_direction], which
    acts on one lane: reference point, 2D sample and the lane's mask bit. *)
Record Emitter : Type := mkEmitter {
  is_environment : bool;
  sample_direction : Interaction3f -> Point2 -> bool -> DirectionSample3f * Spectrum
}.

(** A shape: its bounding box, the emitter and the sensor it may carry, and
    its own ray intersection routine (distance of the hit, if any). *)
Record Shape : Type := mkShape {
  shape_bbox : BoundingBox3f;
  shape_emitter : option Emitter;
  shape_sensor : option Sensor;
  shape_ray_intersect : Ray3f -> option F
}.

Definition is_emitter (s : Shape) : bool :=
  match shape_emitter s with Some _ => true | None => false end.
Definition is_sensor (s : Shape) : bool :=
  match shape_sensor s with Some _ => true | None => false end.

(** The objects a [Properties] instance can hold.  Each object has one
    dynamic type; the four [dynamic_cast]s of the constructor are the four
    projections below. *)
Inductive Object : Type :=
| ObjShape (s : Shape)
| ObjEmitter (e : Emitter)
| ObjSensor (s : Sensor)
| ObjIntegrator (i : Integrator)
| ObjOther (description : string).

Definition as_shape (o : Object) : option Shape :=
  match o with ObjShape s => Some s | _ => None end.
Definition as_emitter (o : Object) : option Emitter :=
  match o with ObjEmitter e => Some e | _ => None end.
Definition as_sensor (o : Object) : option Sensor :=
  match o with ObjSensor s => Some s | _ => None end.
Definition as_integrator (o : Object) : option Integrator :=
  match o with ObjIntegrator i => Some i | _ => None end.

(** ** The discrete distribution over emitters *)

(** Modelled from the spec: [DiscreteDistribution] ([ddistr.h] is not part
    of the sources at hand): "cumulative-weight table over N items; supports
    normalized sampling from a uniform random scalar, returning (selected
    index, selection probability, reused fractional remainder)".
    Entry [i] of [m_cdf] is the sum of the weights of the items [0 .. i]. *)
Record DiscreteDistribution : Type := mkDistr {
  m_cdf : list F;
  m_normalized : bool
}.

(** The constructor's argument only reserves room for that many entries. *)
Definition DiscreteDistribution_new (n_entries : nat) : DiscreteDistribution :=
  mkDistr [] false.

Definition distr_size (d : DiscreteDistribution) : nat := List.length (m_cdf d).

Definition distr_sum (d : DiscreteDistribution) : F := last (m_cdf d) (flit 0).

Definition distr_append (d : DiscreteDistribution) (w : F) : DiscreteDistribution :=
  mkDistr (m_cdf d ++ [fadd (distr_sum d) w]) (m_normalized d).

Definition distr_normalize (d : DiscreteDistribution) : DiscreteDistribution :=
  let normalization := fdiv (flit 1) (distr_sum d) in
  mkDistr (map (fun c => fmul c normalization) (m_cdf d)) true.

(** The cumulative weight of the items before item [i]. *)
Definition cdf_before (d : DiscreteDistribution) (i : nat) : F :=
  match i with
  | O => flit 0
  | S j => nth j (m_cdf d) (flit 0)
  end.

(** The weight (after [normalize]: the probability) of item [i]. *)
Definition distr_pdf (d : DiscreteDistribution) (i : nat) : F :=
  fsub (cdf_before d (S i)) (cdf_before d i).

(** The item a uniform scalar selects: the number of cumulative weights not
    above it, kept inside the table. *)
Definition distr_sample (d : DiscreteDistribution) (x : F) : nat :=
  Nat.min (List.length (filter (fun c => fleb c x) (m_cdf d))) (distr_size d - 1).

(** Per lane: the selected item, its probability, and the sample stretched
    back to a uniform scalar.  The values of the lanes that are not active are
    not specified; they are computed like the others. *)
Definition sample_reuse_pdf (d : DiscreteDistribution) (x : Packet F) (active : Mask)
  : Packet nat * Packet F * Packet F :=
  let index := fun i => distr_sample d (x i) in
  let pdf := fun i => distr_pdf d (index i) in
  (index, pdf, fun i => fdiv (fsub (x i) (cdf_before d (index i))) (pdf i)).

(** ** The scene and its constructor *)

(** Modelled from the spec: the backend handle.  "[init(shapes, bbox)]:
    builds or uploads whatever structure the variant needs"; the handle keeps
    the shapes it was built from. *)
Record Accel : Type := mkAccel { accel_shapes : list Shape }.

Record Scene : Type := mkScene {
  m_children : list Object;
  m_emitters : list Emitter;
  m_sensors : list Sensor;
  m_environment : option Emitter;
  m_integrator : option Integrator;
  m_bbox : BoundingBox3f;
  m_emitter_distr : DiscreteDistribution;
  m_accel : Accel
}.

(** The members before the constructor body runs. *)
Definition Scene_initial : Scene :=
  mkScene [] [] [] None None None (DiscreteDistribution_new 0) (mkAccel []).

Definition set_children (s : Scene) (v : list Object) : Scene :=
  mkScene v (m_emitters s) (m_sensors s) (m_environment s) (m_integrator s)
          (m_bbox s) (m_emitter_distr s) (m_accel s).
Definition set_emitters (s : Scene) (v : list Emitter) : Scene :=
  mkScene (m_children s) v (m_sensors s) (m_environment s) (m_integrator s)
          (m_bbox s) (m_emitter_distr s) (m_accel s).
Definition set_sensors (s : Scene) (v : list Sensor) : Scene :=
  mkScene (m_children s) (m_emitters s) v (m_environment s) (m_integrator s)
          (m_bbox s) (m_emitter_distr s) (m_accel s).
Definition set_environment (s : Scene) (v : option Emitter) : Scene :=
  mkScene (m_children s) (m_emitters s) (m_sensors s) v (m_integrator s)
          (m_bbox s) (m_emitter_distr s) (m_accel s).
Definition set_integrator (s : Scene) (v : option Integrator) : Scene :=
  mkScene (m_children s) (m_emitters s) (m_sensors s) (m_environment s) v
          (m_bbox s) (m_emitter_distr s) (m_accel s).
Definition set_bbox (s : Scene) (v : BoundingBox3f) : Scene :=
  mkScene (m_children s) (m_emitters s) (m_sensors s) (m_environment s) (m_integrator s)
          v (m_emitter_distr s) (m_accel s).
Definition set_emitter_distr (s : Scene) (v : DiscreteDistribution) : Scene :=
  mkScene (m_children s) (m_emitters s) (m_sensors s) (m_environment s) (m_integrator s)
          (m_bbox s) v (m_accel s).
Definition set_accel (s : Scene) (v : Accel) : Scene :=
  mkScene (m_children s) (m_emitters s) (m_sensors s) (m_environment s) (m_integrator s)
          (m_bbox s) (m_emitter_distr s) v.

(** [v.push_back(p)] for a pointer [p] obtained from an accessor. *)
Definition push_back {A : Type} (v : list A) (p : option A) : list A :=
  match p with Some a => v ++ [a] | None => v end.

(** The body of the loop over [props.objects()] (lines 22-51). *)
Definition add_object (s : Scene) (kv : string * Object) : Result Scene :=
  let s := set_children s (m_children s ++ [snd kv]) in
  match as_shape (snd kv), as_emitter (snd kv), as_sensor (snd kv), as_integrator (snd kv) with
  | Some shape, _, _, _ =>
      let s := if is_emitter shape
               then set_emitters s (push_back (m_emitters s) (shape_emitter shape)) else s in
      let s := if is_sensor shape
               then set_sensors s (push_back (m_sensors s) (shape_sensor shape)) else s in
      ret (set_bbox s (bbox_expand (m_bbox s) (shape_bbox shape)))
  | None, Some emitter, _, _ =>
      let s := set_emitters s (m_emitters s ++ [emitter]) in
      if is_environment emitter then
        match m_environment s with
        | Some _ => raise (Throw "Only one environment emitter can be specified per scene.")
        | None => ret (set_environment s (Some emitter))
        end
      else ret s
  | None, None, Some sensor, _ =>
      ret (set_sensors s (m_sensors s ++ [sensor]))
  | None, None, None, Some integrator =>
      match m_integrator s with
      | Some _ => raise (Throw "Only one integrator can be specified per scene.")
      | None => ret (set_integrator s (Some integrator))
      end
  | None, None, None, None => ret s
  end.

(** The loop itself: objects are taken in order, the first [Throw] ends it. *)
Fixpoint add_objects (objects : list (string * Object)) (s : Scene) : Result Scene :=
  match objects with
  | [] => ret s
  | kv :: rest => s' <- add_object s kv ;; add_objects rest s'
  end.

(** The properties of the camera that is created when no sensor was found
    (lines 55-74). *)
Definition default_sensor_props (bbox : BoundingBox3f) : Properties :=
  let sensor_props := Properties_new "perspective" in
  let sensor_props := set_float "fov" (flit 45) sensor_props in
  match bbox with
  | Some box =>
      let center := bbox_center box in
      let extents := bbox_extents box in
      let distance :=
        fdiv (hmax extents)
             (fmul (flit 2)
                   (ftan (fdiv (fmul (fmul (flit 45) (flit (1 # 2))) Pi) (flit 180)))) in
      let sensor_props :=
        set_float "far_clip" (fadd (fmul (hmax extents) (flit 5)) distance) sensor_props in
      let sensor_props := set_float "near_clip" (fdiv distance (flit 100)) sensor_props in
      let sensor_props :=
        set_float "focus_distance" (fadd distance (fdiv (p3_z extents) (flit 2))) sensor_props in
      set_transform "to_world"
        (translate (mkPoint3 (p3_x center) (p3_y center)
                             (fsub (p3_z (bbox_min box)) distance)))
        sensor_props
  | None => sensor_props
  end.

Definition shapes_of (objects : list (string * Object)) : list Shape :=
  flat_map (fun kv => match as_shape (snd kv) with Some s => [s] | None => [] end) objects.

(** Modelled from the spec: [accel_init_cpu] and [accel_init_gpu] (the
    [scene_*.inl] files are not part of the sources at hand): "builds or
    uploads whatever structure the variant needs; may fail fatally if
    required hardware/support is absent for the selected variant". *)
Definition accel_error : Exception :=
  Throw "The acceleration backend is not available.".

Definition accel_init_cpu (cfg : Config) (props : list (string * Object)) : Result Accel :=
  if accel_supported cfg then ret (mkAccel (shapes_of props)) else raise accel_error.

Definition accel_init_gpu (cfg : Config) (props : list (string * Object)) : Result Accel :=
  if accel_supported cfg then ret (mkAccel (shapes_of props)) else raise accel_error.

(** The distribution over [n] emitters (lines 92-96). *)
Definition emitter_distribution (n : nat) : DiscreteDistribution :=
  let d := DiscreteDistribution_new n in
  let d := fold_left (fun d _ => distr_append d (flit 1)) (seq 0 n) d in
  if 0 <? n then distr_normalize d else d.

Definition is_empty {A : Type} (l : list A) : bool :=
  match l with [] => true | _ => false end.

(** [Scene::Scene(const Properties &props)].  The two [Log(Warn, ..)] calls
    only write to the logger, and [set_scene] gives each emitter a pointer
    back to the scene; neither changes a member modelled here. *)
Definition Scene_ctor (cfg : Config) (props : list (string * Object)) : Result Scene :=
  s <- add_objects props Scene_initial ;;
  let s := if is_empty (m_sensors s)
           then set_sensors s (m_sensors s ++ [create_sensor (default_sensor_props (m_bbox s))])
           else s in
  let s := match m_integrator s with
           | None => set_integrator s (Some (create_integrator (Properties_new "path")))
           | Some _ => s
           end in
  accel <- (if is_cuda_array cfg then accel_init_gpu cfg props else accel_init_cpu cfg props) ;;
  let s := set_accel s accel in
  let s := set_emitter_distr s (emitter_distribution (List.length (m_emitters s))) in
  ret s.

(** ** Ray queries *)

(** What a query reports for one lane: no hit, or the distance of the
    nearest hit and the position of the shape that was hit. *)
Definition SurfaceInteraction3f : Type := option (F * nat).

Definition is_valid (si : SurfaceInteraction3f) : bool :=
  match si with Some _ => true | None => false end.

Definition closer (best cand : SurfaceInteraction3f) : SurfaceInteraction3f :=
  match best, cand with
  | None, _ => cand
  | Some _, None => best
  | Some (t, _), Some (t', _) => if fltb t' t then cand else best
  end.

Definition shape_hit (k : nat) (shape : Shape) (ray : Ray3f) : SurfaceInteraction3f :=
  match shape_ray_intersect shape ray with
  | Some t => Some (t, k)
  | None => None
  end.

Fixpoint nearest_hit (shapes : list Shape) (k : nat) (ray : Ray3f)
  (best : SurfaceInteraction3f) : SurfaceInteraction3f :=
  match shapes with
  | [] => best
  | shape :: rest => nearest_hit rest (S k) ray (closer best (shape_hit k shape ray))
  end.

(** Modelled from the spec: the backend's queries (the [scene_*.inl] files
    are not part of the sources at hand).  "[ray_intersect]: returns the
    nearest hit (or no hit) per ray lane; for every set bit in [active_mask]
    the result must equal the result of processing that single ray
    independently". *)
Definition accel_ray_intersect (a : Accel) (ray : Packet Ray3f) (active : Mask)
  : Packet SurfaceInteraction3f :=
  fun i => if active i then nearest_hit (accel_shapes a) 0 (ray i) None else None.

(** Modelled from the spec: "[ray_test]: cheaper existence-only predicate":
    a lane is set when it is active and some shape is hit, found without
    looking for the nearest one. *)
Definition hits (ray : Ray3f) (shape : Shape) : bool :=
  match shape_ray_intersect shape ray with
  | Some _ => true
  | None => false
  end.

Definition accel_ray_test (a : Accel) (ray : Packet Ray3f) (active : Mask) : Mask :=
  fun i => active i && existsb (hits (ray i)) (accel_shapes a).

Definition ray_intersect_cpu (s : Scene) := accel_ray_intersect (m_accel s).
Definition ray_intersect_gpu (s : Scene) := accel_ray_intersect (m_accel s).
Definition ray_intersect_naive_cpu (s : Scene) := accel_ray_intersect (m_accel s).
Definition ray_test_cpu (s : Scene) := accel_ray_test (m_accel s).
Definition ray_test_gpu (s : Scene) := accel_ray_test (m_accel s).

(** [Scene::ray_intersect] (lines 110-116). *)
Definition ray_intersect (cfg : Config) (s : Scene) (ray : Packet Ray3f) (active : Mask)
  : Packet SurfaceInteraction3f :=
  if is_cuda_array cfg then ray_intersect_gpu s ray active
  else ray_intersect_cpu s ray active.

(** [Scene::ray_intersect_naive] (lines 118-127). *)
Definition ray_intersect_naive (cfg : Config) (s : Scene) (ray : Packet Ray3f) (active : Mask)
  : Result (Packet SurfaceInteraction3f) :=
  if negb (MTS_USE_EMBREE cfg) then
    if negb (is_cuda_array cfg) then ret (ray_intersect_naive_cpu s ray active)
    else raise (NotImplementedError "ray_intersect_naive")
  else raise (NotImplementedError "ray_intersect_naive").

(** [Scene::ray_test] (lines 129-135). *)
Definition ray_test (cfg : Config) (s : Scene) (ray : Packet Ray3f) (active : Mask) : Mask :=
  if is_cuda_array cfg then ray_test_gpu s ray active
  else ray_test_cpu s ray active.

(** ** Emitter sampling *)

(** [gather<EmitterPtr>(m_emitters.data(), index, active)]: the lanes that
    are not active receive the null pointer. *)
Definition gather (emitters : list Emitter) (index : Packet nat) (active : Mask)
  : Packet (option Emitter) :=
  fun i => if active i then nth_error emitters (index i) else None.

(** The call through a packet of emitter pointers: each lane is served by
    its own emitter; a lane holding the null pointer receives zero. *)
Definition call_sample_direction (emitter : Packet (option Emitter))
  (ref : Packet Interaction3f) (sample : Packet Point2) (active : Mask)
  : Packet (DirectionSample3f * Spectrum) :=
  fun i => match emitter i with
           | Some e => sample_direction e (ref i) (sample i) (active i)
           | None => (DirectionSample3f_zero, spec_zero)
           end.

(** The shadow ray of lines 164-165. *)
Definition shadow_ray (ref : Interaction3f) (ds : DirectionSample3f) : Ray3f :=
  mkRay (it_p ref) (ds_d ds)
        (fmul Epsilon (fadd (flit 1) (hmax (abs3 (it_p ref)))))
        (fmul (ds_dist ds) (fsub (flit 1) ShadowEpsilon))
        (it_time ref) (it_wavelengths ref).

(** The lanes that are still active after line 160. *)
Definition nonzero_pdf (ds : Packet DirectionSample3f) (active : Mask) : Mask :=
  fun i => active i && fneq (ds_pdf (ds i)) (flit 0).

(** [Scene::sample_emitter_direction] (lines 139-175). *)
Definition sample_emitter_direction (cfg : Config) (s : Scene)
  (ref : Packet Interaction3f) (sample_ : Packet Point2)
  (test_visibility : bool) (active : Mask)
  : Packet DirectionSample3f * Packet Spectrum :=
  let sample := sample_ in
  let ds : Packet DirectionSample3f := fun _ => DirectionSample3f_default in
  let spec : Packet Spectrum := fun _ => spec_zero in
  if negb (is_empty (m_emitters s)) then
    let '(index, emitter_pdf, sample_x) :=
      sample_reuse_pdf (m_emitter_distr s) (fun i => p2_x (sample i)) active in
    let sample := fun i => set_x (sample i) (sample_x i) in
    let emitter := gather (m_emitters s) index active in
    let r := call_sample_direction emitter ref sample active in
    let ds := fun i => fst (r i) in
    let spec := fun i => snd (r i) in
    let active := nonzero_pdf ds active in
    let spec :=
      if test_visibility && any_or_true cfg active then
        let ray := fun i => shadow_ray (ref i) (ds i) in
        let hit := ray_test cfg s ray active in
        fun i => if hit i then spec_zero else spec i
      else spec in
    (fun i => set_pdf (ds i) (fmul (ds_pdf (ds i)) (emitter_pdf i)),
     fun i => spec_scale (spec i) (frcp (emitter_pdf i)))
  else (ds, spec).

(** ** What a collection of objects contributes *)

Definition emitters_of_object (o : Object) : list Emitter :=
  match o with
  | ObjShape shape => push_back [] (shape_emitter shape)
  | ObjEmitter e => [e]
  | _ => []
  end.

Definition sensors_of_object (o : Object) : list Sensor :=
  match o with
  | ObjShape shape => push_back [] (shape_sensor shape)
  | ObjSensor sensor => [sensor]
  | _ => []
  end.

Definition emitters_of (props : list (string * Object)) : list Emitter :=
  flat_map (fun kv => emitters_of_object (snd kv)) props.

Definition sensors_of (props : list (string * Object)) : list Sensor :=
  flat_map (fun kv => sensors_of_object (snd kv)) props.

Definition bbox_of (props : list (string * Object)) (b : BoundingBox3f) : BoundingBox3f :=
  fold_left (fun b kv => match as_shape (snd kv) with
                         | Some shape => bbox_expand b (shape_bbox shape)
                         | None => b
                         end) props b.

Definition is_environment_emitter (o : Object) : bool :=
  match as_emitter o with
  | Some e => is_environment e
  | None => false
  end.

Definition is_integrator (o : Object) : bool :=
  match as_integrator o with Some _ => true | None => false end.

Definition count_environment (props : list (string * Object)) : nat :=
  List.length (filter (fun kv => is_environment_emitter (snd kv)) props).

Definition count_integrators (props : list (string * Object)) : nat :=
  List.length (filter (fun kv => is_integrator (snd kv)) props).

Definition set_count {A : Type} (p : option A) : nat :=
  match p with Some _ => 1 | None => 0 end.

Definition environment_error : Exception :=
  Throw "Only one environment emitter can be specified per scene.".
Definition integrator_error : Exception :=
  Throw "Only one integrator can be specified per scene.".

(** ** The steps of [sample_emitter_direction], named

    The values the function computes on its way, for use in statements. *)

(** Lines 154-155: the emitter each lane selects, with its probability. *)
Definition selected_index (s : Scene) (sample : Packet Point2) (active : Mask) : Packet nat :=
  fst (fst (sample_reuse_pdf (m_emitter_distr s) (fun i => p2_x (sample i)) active)).

Definition selection_pdf (s : Scene) (sample : Packet Point2) (active : Mask) : Packet F :=
  snd (fst (sample_reuse_pdf (m_emitter_distr s) (fun i => p2_x (sample i)) active)).

(** The 2D sample after its first coordinate was replaced. *)
Definition reused_sample (s : Scene) (sample : Packet Point2) (active : Mask) : Packet Point2 :=
  fun i => set_x (sample i)
                 (snd (sample_reuse_pdf (m_emitter_distr s) (fun i => p2_x (sample i)) active) i).

(** Line 159: what the selected emitters return. *)
Definition emitter_sample (s : Scene) (ref : Packet Interaction3f) (sample : Packet Point2)
  (active : Mask) : Packet (DirectionSample3f * Spectrum) :=
  call_sample_direction (gather (m_emitters s) (selected_index s sample active) active)
                        ref (reused_sample s sample active) active.

(** Line 160: the mask the visibility test runs under. *)
Definition tested_lanes (s : Scene) (ref : Packet Interaction3f) (sample : Packet Point2)
  (active : Mask) : Mask :=
  nonzero_pdf (fun i => fst (emitter_sample s ref sample active i)) active.

(** Line 163: whether the visibility test runs at all. *)
Definition visibility_tested (cfg : Config) (s : Scene) (ref : Packet Interaction3f)
  (sample : Packet Point2) (test_visibility : bool) (active : Mask) : bool :=
  test_visibility && any_or_true cfg (tested_lanes s ref sample active).

(** Lines 164-166: the lanes whose shadow ray reports a hit. *)
Definition shadow_hit (cfg : Config) (s : Scene) (ref : Packet Interaction3f)
  (sample : Packet Point2) (active : Mask) : Mask :=
  ray_test cfg s
    (fun i => shadow_ray (ref i) (fst (emitter_sample s ref sample active i)))
    (tested_lanes s ref sample active).

(** ** The other members, and what a collection holds for them *)

(** [Scene::children] (line 137). *)
Definition children (s : Scene) : list Object := m_children s.

Definition integrators_of (props : list (string * Object)) : list Integrator :=
  flat_map (fun kv => match as_integrator (snd kv) with
                      | Some i => [i]
                      | None => []
                      end) props.

Definition environment_of_object (o : Object) : option Emitter :=
  match as_emitter o with
  | Some e => if is_environment e then Some e else None
  | None => None
  end.

Definition environments_of (props : list (string * Object)) : list Emitter :=
  flat_map (fun kv => match environment_of_object (snd kv) with
                      | Some e => [e]
                      | None => []
                      end) props.

(** The integrator of lines 82-83. *)
Definition default_integrator : Integrator :=
  create_integrator (Properties_new "path").

End Variant.

(** ** Two instances of the numeric interface *)

(** Exact rational arithmetic; every definition above runs on it. *)
#[export] Instance Q_FloatOps : FloatOps Q := {|
  flit := fun q => q;
  fadd := Qplus;
  fsub := Qminus;
  fmul := Qmult;
  fdiv := Qdiv;
  frcp := Qinv;
  fabs := Qabs;
  fmin := Qmin;
  fmax := Qmax;
  fneq := fun x y => negb (Qeq_bool x y);
  fltb := fun x y => negb (Qle_bool y x);
  fleb := Qle_bool
|}.

(** One colour channel, over any [Float]. *)
#[export] Instance Mono_SpectrumOps {F : Type} {FO : FloatOps F} : SpectrumOps F F := {|
  spec_zero := flit 0;
  spec_scale := fmul
|}.

(** The real numbers. *)
#[export] Instance R_FloatOps : FloatOps R := {|
  flit := Q2R;
  fadd := Rplus;
  fsub := Rminus;
  fmul := Rmult;
  fdiv := Rdiv;
  frcp := Rinv;
  fabs := Rabs;
  fmin := Rmin;
  fmax := Rmax;
  fneq := fun x y => if Req_dec_T x y then false else true;
  fltb := fun x y => if Rlt_dec x y then true else false;
  fleb := fun x y => if Rle_dec x y then true else false
|}.

#[export] Instance R_FloatTrig : FloatTrig R := {|
  ftan := tan;
  Pi := PI
|}.

(** ** Concrete scenes

    Small inputs on which the definitions are run below: over the
    rationals with one colour channel, and over the reals. *)

Definition all_lanes : Mask := fun _ => true.

(** A packet of four lanes on the software backend. *)
Definition q_config : Config := mkConfig false false 4 true.

Definition q_epsilon : Q := 1 # 1000000.
Definition q_shadow_epsilon : Q := 1 # 1000.

Definition q_lamp_a : @Emitter Q Q unit unit :=
  mkEmitter false
    (fun _ sample _ => (mkDS (mkPoint3 0 0 1) 2 (1 # 2) tt, 3 + p2_y sample)%Q).

Definition q_lamp_b : @Emitter Q Q unit unit :=
  mkEmitter false
    (fun _ sample _ => (mkDS (mkPoint3 1 0 0) 5 (1 # 4) tt, 8)%Q).

(** A shape every ray hits at distance 1, and one no ray hits. *)
Definition q_wall : @Shape Q Q unit unit :=
  mkShape (Some (mkPoint3 (-1) (-1) 1, mkPoint3 1 1 1)%Q) None None (fun _ => Some 1%Q).

Definition q_glass : @Shape Q Q unit unit :=
  mkShape (Some (mkPoint3 (-1) (-1) 2, mkPoint3 1 1 2)%Q) None None (fun _ => None).

Definition q_scene : @Scene Q Q unit unit :=
  mkScene [] [q_lamp_a; q_lamp_b] [] None None None
          (emitter_distribution 2) (mkAccel [q_glass; q_wall]).

Definition q_dark_scene : @Scene Q Q unit unit :=
  mkScene [] [] [] None None None (DiscreteDistribution_new 0) (mkAccel [q_wall]).

Definition q_ref : Packet (@Interaction3f Q unit) :=
  fun _ => mkInteraction (mkPoint3 0 0 0)%Q 0%Q tt.

(** Lanes 0 and 1 draw below one half, the others above. *)
Definition q_sample : Packet (@Point2 Q) :=
  fun i => if i <? 2 then mkPoint2 (1 # 4)%Q (1 # 3)%Q else mkPoint2 (3 # 4)%Q (1 # 3)%Q.

(** The same samples on the four lanes of the packet, others beyond. *)
Definition q_sample' : Packet (@Point2 Q) :=
  fun i => if i <? 4 then q_sample i else mkPoint2 0%Q 0%Q.

Definition q_rays : Packet (@Ray3f Q unit) :=
  fun _ => mkRay (mkPoint3 0 0 0)%Q (mkPoint3 0 0 1)%Q 0%Q 10%Q 0%Q tt.

(** One lane on the software backend, over the reals. *)
Definition r_config : Config := mkConfig false false 1 true.

Definition r_sky_a : @Emitter R R unit unit :=
  mkEmitter true (fun _ _ _ => (mkDS (mkPoint3 0 1 0) 1 1 tt, 1)%R).

Definition r_sky_b : @Emitter R R unit unit :=
  mkEmitter true (fun _ _ _ => (mkDS (mkPoint3 0 1 0) 1 1 tt, 2)%R).

Definition r_lamp_a : @Emitter R R unit unit :=
  mkEmitter false (fun _ _ _ => (mkDS (mkPoint3 0 0 1) 2 (1 / 2) tt, 3)%R).

Definition r_lamp_b : @Emitter R R unit unit :=
  mkEmitter false (fun _ _ _ => (mkDS (mkPoint3 1 0 0) 5 (1 / 4) tt, 8)%R).

Definition r_box : @Shape R R unit unit :=
  mkShape (Some (mkPoint3 (-1) (-1) (-1), mkPoint3 1 1 1)%R) None None (fun _ => None).

Definition r_wall : @Shape R R unit unit :=
  mkShape (Some (mkPoint3 (-1) (-1) 1, mkPoint3 1 1 1)%R) None None (fun _ => Some 1%R).

Definition r_path : @Integrator R := mkIntegrator (Properties_new "path").
Definition r_direct : @Integrator R := mkIntegrator (Properties_new "direct").

Definition r_two_skies : list (string * @Object R R unit unit) :=
  [("sky_a", ObjEmitter r_sky_a); ("sky_b", ObjEmitter r_sky_b)].

Definition r_two_integrators_first : list (string * @Object R R unit unit) :=
  [("a_sky", ObjEmitter r_sky_a); ("b_path", ObjIntegrator r_path);
   ("c_direct", ObjIntegrator r_direct); ("d_sky", ObjEmitter r_sky_b)].

Definition r_unit_box : list (string * @Object R R unit unit) :=
  [("box", ObjShape r_box)].

Definition r_two_lamps : list (string * @Object R R unit unit) :=
  [("lamp_a", ObjEmitter r_lamp_a); ("lamp_b", ObjEmitter r_lamp_b)].

Definition r_lamp_behind_wall : list (string * @Object R R unit unit) :=
  [("lamp", ObjEmitter r_lamp_a); ("wall", ObjShape r_wall)].

(** The scene a collection constructs (the initial members if it throws). *)
Definition constructed (cfg : Config) (props : list (string * @Object R R unit unit))
  : @Scene R R unit unit :=
  match Scene_ctor cfg props with
  | inr s => s
  | inl _ => Scene_initial
  end.

Definition r_ref : Packet (@Interaction3f R unit) :=
  fun _ => mkInteraction (mkPoint3 0 0 0)%R 0%R tt.

Definition r_sample : Packet (@Point2 R) := fun _ => mkPoint2 (1 / 4)%R (1 / 3)%R.

Definition r_epsilon : R := (1 / 1000000)%R.
Definition r_shadow_epsilon : R := (1 / 1000)%R.

(** The distance of the default camera from the box [-1, 1]^3. *)
Definition unit_box_distance : R := (2 / (2 * tan (22.5 * PI / 180)))%R.

(** More collections, for the further properties. *)
Definition r_two_integrators : list (string * @Object R R unit unit) :=
  [("path", ObjIntegrator r_path); ("direct", ObjIntegrator r_direct)].

Definition r_box_with_integrator : list (string * @Object R R unit unit) :=
  [("direct", ObjIntegrator r_direct); ("box", ObjShape r_box)].

Definition r_sky_and_lamp : list (string * @Object R R unit unit) :=
  [("sky", ObjEmitter r_sky_a); ("lamp", ObjEmitter r_lamp_a)].

Definition r_wall_before_lamp : list (string * @Object R R unit unit) :=
  [("wall", ObjShape r_wall); ("lamp", ObjEmitter r_lamp_a)].

Definition r_camera : @Sensor R := mkSensor (Properties_new "thinlens").
Definition r_eye : @Sensor R := mkSensor (Properties_new "perspective").

(** A shape that is a lamp and carries a camera. *)
Definition r_panel : @Shape R R unit unit :=
  mkShape (Some (mkPoint3 0 0 0, mkPoint3 1 1 0)%R) (Some r_lamp_b) (Some r_camera)
          (fun _ => None).

Definition r_studio : list (string * @Object R R unit unit) :=
  [("eye", ObjSensor r_eye); ("note", ObjOther "bsdf"); ("panel", ObjShape r_panel)].

Definition r_toward_lamp : @DirectionSample3f R unit :=
  mkDS (mkPoint3 0 0 1)%R 2%R (1 / 2)%R tt.


(** * Properties *)

Section Properties.

Context {F : Type} {FO : FloatOps F}.
Context {Spectrum : Type} {SO : SpectrumOps F Spectrum}.
Context {Wavelength : Type}.
Context {SampleAux : Type} (aux_zero : SampleAux).
Context {FT : FloatTrig F}.
Context (Epsilon ShadowEpsilon : F).

Local Abbreviation Scene := (@Scene F Spectrum Wavelength SampleAux).
Local Abbreviation Object := (@Object F Spectrum Wavelength SampleAux).
Local Abbreviation Shape := (@Shape F Spectrum Wavelength SampleAux).
Local Abbreviation Ray3f := (@Ray3f F Wavelength).
Local Abbreviation sample_emitter_direction :=
  (sample_emitter_direction aux_zero Epsilon ShadowEpsilon).
Local Abbreviation shadow_hit := (shadow_hit aux_zero Epsilon ShadowEpsilon).
Local Abbreviation emitter_sample := (emitter_sample aux_zero).
Local Abbreviation tested_lanes := (tested_lanes aux_zero).
Local Abbreviation visibility_tested := (visibility_tested aux_zero).

(** ** The aggregation loop *)

Lemma add_objects_app (l1 l2 : list (string * Object)) (s : Scene) :
  add_objects (l1 ++ l2) s = (s' <- add_objects l1 s ;; add_objects l2 s').
Proof.
  revert s. induction l1 as [|kv l1 IH]; intros s; simpl.
  - reflexivity.
  - destruct (add_object s kv) as [e|s']; simpl; [reflexivity | apply IH].
Qed.

(** One step of the loop either throws one of the two errors or registers
    what the object contributes. *)
Lemma add_object_spec (s : Scene) (kv : string * Object) :
  match add_object s kv with
  | inl e =>
      (e = environment_error /\ is_environment_emitter (snd kv) = true /\
       m_environment s <> None) \/
      (e = integrator_error /\ is_integrator (snd kv) = true /\ m_integrator s <> None)
  | inr s' =>
      m_children s' = m_children s ++ [snd kv] /\
      m_emitters s' = m_emitters s ++ emitters_of_object (snd kv) /\
      m_sensors s' = m_sensors s ++ sensors_of_object (snd kv) /\
      m_bbox s' = bbox_of [kv] (m_bbox s) /\
      set_count (m_environment s') =
        set_count (m_environment s) + (if is_environment_emitter (snd kv) then 1 else 0) /\
      set_count (m_integrator s') =
        set_count (m_integrator s) + (if is_integrator (snd kv) then 1 else 0)
  end.
Proof.
  destruct kv as [name o]. destruct o as [shape|e|sensor|integ|descr];
    unfold add_object, is_environment_emitter, is_integrator; simpl.
  - unfold is_emitter, is_sensor.
    destruct (shape_emitter shape), (shape_sensor shape); simpl;
      rewrite ?app_nil_r; repeat split; lia.
  - destruct (is_environment e) eqn:He; simpl.
    + destruct (m_environment s) eqn:Hm; simpl.
      * left. repeat split; congruence.
      * rewrite ?app_nil_r. repeat split; lia.
    + rewrite ?app_nil_r. repeat split; lia.
  - rewrite ?app_nil_r. repeat split; lia.
  - destruct (m_integrator s) eqn:Hm; simpl.
    + right. repeat split; congruence.
    + rewrite ?app_nil_r. repeat split; lia.
  - rewrite ?app_nil_r. repeat split; lia.
Qed.

Lemma count_environment_cons (kv : string * Object) (l : list (string * Object)) :
  count_environment (kv :: l) =
  (if is_environment_emitter (snd kv) then 1 else 0) + count_environment l.
Proof.
  unfold count_environment; simpl.
  destruct (is_environment_emitter (snd kv)); reflexivity.
Qed.

Lemma count_integrators_cons (kv : string * Object) (l : list (string * Object)) :
  count_integrators (kv :: l) =
  (if is_integrator (snd kv) then 1 else 0) + count_integrators l.
Proof.
  unfold count_integrators; simpl.
  destruct (is_integrator (snd kv)); reflexivity.
Qed.

Lemma set_count_pos {A : Type} (p : option A) : p <> None <-> 1 <= set_count p.
Proof. destruct p; simpl; split; intros; try congruence; lia. Qed.

(** What a run of the loop that does not throw leaves in the members. *)
Lemma add_objects_members (l : list (string * Object)) (s s' : Scene) :
  add_objects l s = inr s' ->
  m_children s' = m_children s ++ map snd l /\
  m_emitters s' = m_emitters s ++ emitters_of l /\
  m_sensors s' = m_sensors s ++ sensors_of l /\
  m_bbox s' = bbox_of l (m_bbox s) /\
  set_count (m_environment s') = set_count (m_environment s) + count_environment l /\
  set_count (m_integrator s') = set_count (m_integrator s) + count_integrators l /\
  m_emitter_distr s' = m_emitter_distr s /\
  m_accel s' = m_accel s.
Proof.
  revert s. induction l as [|kv l IH]; intros s H; simpl in H.
  - injection H as <-. simpl. rewrite !app_nil_r.
    unfold count_environment, count_integrators; simpl. repeat split; lia.
  - pose proof (add_object_spec s kv) as Hs.
    assert (Hk : forall s1, add_object s kv = inr s1 ->
                 m_emitter_distr s1 = m_emitter_distr s /\ m_accel s1 = m_accel s).
    { intros s1. destruct kv as [name o]. unfold add_object.
      destruct o as [shape|e|sensor|integ|descr]; simpl.
      - destruct (is_emitter shape), (is_sensor shape); intros [= <-]; auto.
      - destruct (is_environment e); [destruct (m_environment s)|];
          simpl; intros [= <-]; auto.
      - intros [= <-]; auto.
      - destruct (m_integrator s); simpl; intros [= <-]; auto.
      - intros [= <-]; auto. }
    destruct (add_object s kv) as [e|s1]; simpl in H; [discriminate|].
    destruct (Hk s1 eq_refl) as [Hd Ha].
    destruct Hs as (Hc & He & Hse & Hb & Hen & Hin).
    destruct (IH s1 H) as (Hc' & He' & Hse' & Hb' & Hen' & Hin' & Hd' & Ha').
    rewrite count_environment_cons, count_integrators_cons.
    unfold emitters_of, sensors_of in *. simpl.
    rewrite Hc', He', Hse', Hb', Hen', Hin', Hd', Ha', Hc, He, Hse, Hb, Hen, Hin, Hd, Ha.
    rewrite <- !app_assoc. simpl. repeat split; lia.
Qed.

(** When the loop throws, it is one of the two errors, and the collection
    holds one object more of that kind than the scene has room for. *)
Lemma add_objects_error (l : list (string * Object)) (s : Scene) (e : Exception) :
  add_objects l s = inl e ->
  (e = environment_error /\ 2 <= set_count (m_environment s) + count_environment l) \/
  (e = integrator_error /\ 2 <= set_count (m_integrator s) + count_integrators l).
Proof.
  revert s. induction l as [|kv l IH]; intros s H; simpl in H; [discriminate|].
  pose proof (add_object_spec s kv) as Hs.
  rewrite count_environment_cons, count_integrators_cons.
  destruct (add_object s kv) as [e1|s1]; simpl in H.
  - injection H as ->.
    destruct Hs as [(-> & Hk & Hm)|(-> & Hk & Hm)]; rewrite Hk;
      apply set_count_pos in Hm; [left|right]; split; auto; lia.
  - destruct Hs as (_ & _ & _ & _ & Hen & Hin).
    destruct (IH s1 H) as [[-> Hc]|[-> Hc]]; [left|right]; split; auto; lia.
Qed.

(** The loop runs to its end when there is room for every environment
    emitter and every integrator of the collection. *)
Lemma add_objects_ok (l : list (string * Object)) (s : Scene) :
  set_count (m_environment s) + count_environment l <= 1 ->
  set_count (m_integrator s) + count_integrators l <= 1 ->
  exists s', add_objects l s = inr s'.
Proof.
  intros He Hi. destruct (add_objects l s) as [e|s'] eqn:H; [|eauto].
  apply add_objects_error in H. destruct H as [[_ H]|[_ H]]; lia.
Qed.

Lemma set_count_le {A : Type} (p : option A) : set_count p <= 1.
Proof. destruct p; simpl; lia. Qed.

Lemma environment_emitter_not_integrator (o : Object) :
  is_environment_emitter o = true -> is_integrator o = false.
Proof. destruct o; unfold is_environment_emitter, is_integrator; simpl; congruence. Qed.

(** A collection with more than [n] environment emitters splits at the one
    that has exactly [n] of them before it. *)
Lemma split_at_environment (n : nat) (l : list (string * Object)) :
  S n <= count_environment l ->
  exists before kv after,
    l = before ++ kv :: after /\
    is_environment_emitter (snd kv) = true /\
    count_environment before = n.
Proof.
  revert n. induction l as [|kv l IH]; intros n H.
  - unfold count_environment in H; simpl in H; lia.
  - rewrite count_environment_cons in H.
    destruct (is_environment_emitter (snd kv)) eqn:Hk.
    + destruct n as [|n].
      * exists [], kv, l. repeat split; auto.
      * destruct (IH n) as (b & kv' & a & -> & Hkv & Hc); [lia|].
        exists (kv :: b), kv', a. repeat split; auto.
        rewrite count_environment_cons, Hk, Hc. reflexivity.
    + destruct (IH n) as (b & kv' & a & -> & Hkv & Hc); [simpl in H; lia|].
      exists (kv :: b), kv', a. repeat split; auto.
      rewrite count_environment_cons, Hk, Hc. reflexivity.
Qed.

Lemma Scene_ctor_loop_error (cfg : Config) (props : list (string * Object)) (e : Exception) :
  add_objects props Scene_initial = inl e ->
  Scene_ctor (FT := FT) cfg props = inl e.
Proof. intros H. unfold Scene_ctor. rewrite H. reflexivity. Qed.

(** C4. A collection with two or more environment emitters (objects that
    are emitters and carry the environment flag) never yields a scene: the
    constructor throws.  Split the collection at its second environment
    emitter: when the loop reaches that object, it is this object that
    throws, with the environment-emitter message, and nothing behind it is
    looked at; the loop can only fail to reach it by having thrown already,
    on a second integrator. *)
Theorem second_environment_emitter_is_fatal
  (cfg : Config) (props : list (string * Object)) :
  2 <= count_environment props ->
  (exists e, Scene_ctor (FT := FT) cfg props = inl e) /\
  exists before kv after,
    props = before ++ kv :: after /\
    is_environment_emitter (snd kv) = true /\
    count_environment before = 1 /\
    (forall s, add_objects before Scene_initial = inr s ->
       add_object s kv = inl environment_error /\
       Scene_ctor (FT := FT) cfg props = inl environment_error) /\
    (forall e, add_objects before Scene_initial = inl e ->
       e = integrator_error /\ Scene_ctor (FT := FT) cfg props = inl e).
Proof.
  intros H2.
  destruct (split_at_environment 1 props H2) as (before & kv & after & -> & Hkv & Hc).
  assert (Hreach : forall s, add_objects before Scene_initial = inr s ->
                   add_object s kv = inl environment_error).
  { intros s Hs. apply add_objects_members in Hs.
    destruct Hs as (_ & _ & _ & _ & Hen & _). simpl in Hen. rewrite Hc in Hen.
    pose proof (add_object_spec s kv) as Hk.
    destruct (add_object s kv) as [e|s'].
    - destruct Hk as [(-> & _)|(_ & Hi & _)]; [reflexivity|].
      rewrite (environment_emitter_not_integrator _ Hkv) in Hi. discriminate.
    - destruct Hk as (_ & _ & _ & _ & Hen' & _). rewrite Hkv, Hen in Hen'.
      pose proof (set_count_le (m_environment s')). lia. }
  assert (Hrun : forall s, add_objects before Scene_initial = inr s ->
                 add_objects (before ++ kv :: after) Scene_initial = inl environment_error).
  { intros s Hs. rewrite add_objects_app, Hs. simpl. rewrite (Hreach s Hs). reflexivity. }
  assert (Hearly : forall e, add_objects before Scene_initial = inl e ->
                   e = integrator_error /\
                   add_objects (before ++ kv :: after) Scene_initial = inl e).
  { intros e He. split.
    - apply add_objects_error in He. simpl in He.
      destruct He as [[_ He]|[-> _]]; [lia | reflexivity].
    - rewrite add_objects_app, He. reflexivity. }
  split.
  - destruct (add_objects before Scene_initial) as [e|s] eqn:Hb.
    + exists e. apply Scene_ctor_loop_error. apply (Hearly e eq_refl).
    + exists environment_error. apply Scene_ctor_loop_error. apply (Hrun s eq_refl).
  - exists before, kv, after. repeat split; auto.
    + apply Scene_ctor_loop_error. apply (Hrun s H).
    + apply (Hearly e H).
    + apply Scene_ctor_loop_error. apply (Hearly e H).
Qed.

(** ** Emitter sampling *)

Lemma is_empty_false {A : Type} (l : list A) : l <> [] -> is_empty l = false.
Proof. destruct l; [congruence | reflexivity]. Qed.

(** With no emitter the function returns what it started from. *)
Lemma sample_emitter_direction_empty (cfg : Config) (s : Scene)
  (ref : Packet Interaction3f) (sample : Packet Point2) (tv : bool) (active : Mask) :
  m_emitters s = [] ->
  sample_emitter_direction cfg s ref sample tv active =
  (fun _ => DirectionSample3f_default aux_zero, fun _ => spec_zero).
Proof.
  intros H. unfold sample_emitter_direction. rewrite H. reflexivity.
Qed.

(** With an emitter, lane by lane: the direction sample is the selected
    emitter's with its pdf multiplied by the selection probability; the
    radiance is the emitter's, or zero where the visibility test ran and
    the shadow ray hit something, multiplied by the reciprocal of the
    selection probability. *)
Lemma sample_emitter_direction_steps (cfg : Config) (s : Scene)
  (ref : Packet Interaction3f) (sample : Packet Point2) (tv : bool) (active : Mask)
  (i : nat) :
  m_emitters s <> [] ->
  fst (sample_emitter_direction cfg s ref sample tv active) i =
    set_pdf (fst (emitter_sample s ref sample active i))
            (fmul (ds_pdf (fst (emitter_sample s ref sample active i)))
                  (selection_pdf s sample active i)) /\
  snd (sample_emitter_direction cfg s ref sample tv active) i =
    spec_scale
      (if visibility_tested cfg s ref sample tv active && shadow_hit cfg s ref sample active i
       then spec_zero
       else snd (emitter_sample s ref sample active i))
      (frcp (selection_pdf s sample active i)).
Proof.
  intros Hne. apply is_empty_false in Hne.
  unfold sample_emitter_direction. rewrite Hne.
  unfold visibility_tested, shadow_hit, tested_lanes, emitter_sample,
    selection_pdf, selected_index, reused_sample, sample_reuse_pdf.
  cbv beta iota zeta. simpl negb. cbv iota.
  destruct (tv && any_or_true cfg _); simpl; split; reflexivity.
Qed.

(** C1. On a scene without emitters, whatever the reference points, the
    samples, the visibility flag and the mask are, every lane of the result
    holds the default direction sample, whose pdf is zero, and zero
    radiance. *)
Theorem sample_emitter_direction_no_emitters (cfg : Config) (s : Scene)
  (ref : Packet Interaction3f) (sample : Packet Point2) (tv : bool) (active : Mask) :
  m_emitters s = [] ->
  forall i : nat,
    fst (sample_emitter_direction cfg s ref sample tv active) i
      = DirectionSample3f_default aux_zero /\
    ds_pdf (fst (sample_emitter_direction cfg s ref sample tv active) i) = flit 0 /\
    snd (sample_emitter_direction cfg s ref sample tv active) i = spec_zero.
Proof.
  intros H i. rewrite (sample_emitter_direction_empty cfg s ref sample tv active H).
  repeat split.
Qed.

(** On an active lane the call of line 159 is the selected emitter's own
    [sample_direction]. *)
Lemma emitter_sample_active (s : Scene) (ref : Packet Interaction3f)
  (sample : Packet Point2) (active : Mask) (i : nat) (e : Emitter) :
  active i = true ->
  nth_error (m_emitters s) (selected_index s sample active i) = Some e ->
  emitter_sample s ref sample active i =
  sample_direction e (ref i) (reused_sample s sample active i) true.
Proof.
  intros Ha He. unfold emitter_sample, call_sample_direction, gather.
  rewrite Ha, He. reflexivity.
Qed.

(** C2. On a scene with emitters, on every active lane: the returned pdf is
    the pdf of the selected emitter's own [sample_direction] times the
    selection probability, and the returned radiance is that emitter's
    radiance, zeroed where the visibility test found an occluder, times the
    reciprocal of the selection probability. *)
Theorem sample_emitter_direction_accounts_for_selection (cfg : Config) (s : Scene)
  (ref : Packet Interaction3f) (sample : Packet Point2) (tv : bool) (active : Mask)
  (i : nat) (e : Emitter) :
  m_emitters s <> [] ->
  active i = true ->
  nth_error (m_emitters s) (selected_index s sample active i) = Some e ->
  let own := sample_direction e (ref i) (reused_sample s sample active i) true in
  let radiance :=
    if visibility_tested cfg s ref sample tv active && shadow_hit cfg s ref sample active i
    then spec_zero else snd own in
  ds_pdf (fst (sample_emitter_direction cfg s ref sample tv active) i)
    = fmul (ds_pdf (fst own)) (selection_pdf s sample active i) /\
  snd (sample_emitter_direction cfg s ref sample tv active) i
    = spec_scale radiance (frcp (selection_pdf s sample active i)).
Proof.
  intros Hne Ha He own radiance.
  destruct (sample_emitter_direction_steps cfg s ref sample tv active i Hne) as [Hd Hs].
  rewrite Hd, Hs. rewrite (emitter_sample_active s ref sample active i e Ha He).
  split; reflexivity.
Qed.

(** The emitters' answers and the selection do not look at the backend. *)
Lemma emitter_sample_set_accel (s : Scene) (a : Accel) (ref : Packet Interaction3f)
  (sample : Packet Point2) (active : Mask) (i : nat) :
  emitter_sample (set_accel s a) ref sample active i = emitter_sample s ref sample active i /\
  selection_pdf (set_accel s a) sample active i = selection_pdf s sample active i.
Proof. split; reflexivity. Qed.

(** A mask that is set on a lane of the packet makes [any_or<true>] true. *)
Lemma any_or_true_lane (cfg : Config) (m : Mask) (i : nat) :
  i < packet_size cfg -> m i = true -> any_or_true cfg m = true.
Proof.
  intros Hi Hm. unfold any_or_true, any, lanes.
  destruct (is_cuda_array cfg); [reflexivity|].
  apply existsb_exists. exists i. split; [apply in_seq; lia | exact Hm].
Qed.

(** [ray_test] only reports lanes it was asked about. *)
Lemma ray_test_within_mask (cfg : Config) (s : Scene) (ray : Packet Ray3f)
  (active : Mask) (i : nat) :
  ray_test cfg s ray active i = true -> active i = true.
Proof.
  unfold ray_test, ray_test_gpu, ray_test_cpu, accel_ray_test.
  destruct (is_cuda_array cfg); intros H; apply andb_true_iff in H; apply H.
Qed.

(** C3. With [test_visibility = true], on a lane of the packet whose shadow
    ray reports a hit: the radiance is zero (zero scaled by the reciprocal
    selection probability, which is zero as soon as scaling zero gives
    zero), while the direction sample - direction, distance, pdf and the
    rest - is the one the call returns on the same scene with any other
    geometry behind it, in particular with no occluder at all, where the
    radiance is the emitter's. *)
Theorem occluded_lane_only_loses_radiance (cfg : Config) (s : Scene)
  (ref : Packet Interaction3f) (sample : Packet Point2) (active : Mask) (i : nat) :
  (forall x : F, spec_scale spec_zero x = spec_zero) ->
  m_emitters s <> [] ->
  i < packet_size cfg ->
  shadow_hit cfg s ref sample active i = true ->
  snd (sample_emitter_direction cfg s ref sample true active) i = spec_zero /\
  (forall (a : Accel) (tv : bool),
     fst (sample_emitter_direction cfg (set_accel s a) ref sample tv active) i
     = fst (sample_emitter_direction cfg s ref sample true active) i) /\
  snd (sample_emitter_direction cfg (set_accel s (mkAccel [])) ref sample true active) i
    = spec_scale (snd (emitter_sample s ref sample active i))
                 (frcp (selection_pdf s sample active i)).
Proof.
  intros Hzero Hne Hi Hhit.
  assert (Hrun : visibility_tested cfg s ref sample true active = true).
  { unfold visibility_tested. simpl.
    apply (any_or_true_lane cfg _ i Hi).
    apply (ray_test_within_mask cfg s _ _ i Hhit). }
  repeat split.
  - destruct (sample_emitter_direction_steps cfg s ref sample true active i Hne) as [_ Hs].
    rewrite Hs, Hrun, Hhit. simpl. apply Hzero.
  - intros a tv.
    assert (Hne' : m_emitters (set_accel s a) <> []) by exact Hne.
    destruct (sample_emitter_direction_steps cfg (set_accel s a) ref sample tv active i Hne')
      as [Hd _].
    destruct (sample_emitter_direction_steps cfg s ref sample true active i Hne) as [Hd' _].
    rewrite Hd, Hd'. reflexivity.
  - assert (Hne' : m_emitters (set_accel s (mkAccel [])) <> []) by exact Hne.
    destruct (sample_emitter_direction_steps cfg (set_accel s (mkAccel [])) ref sample
                true active i Hne') as [_ Hs].
    rewrite Hs.
    replace (shadow_hit cfg (set_accel s (mkAccel [])) ref sample active i) with false.
    + rewrite andb_false_r. reflexivity.
    + unfold shadow_hit, ray_test, ray_test_gpu, ray_test_cpu, accel_ray_test. simpl.
      destruct (is_cuda_array cfg); rewrite andb_false_r; reflexivity.
Qed.

(** *** Determinism, lane by lane *)

Lemma any_agree (cfg : Config) (m1 m2 : Mask) :
  (forall i, i < packet_size cfg -> m1 i = m2 i) -> any cfg m1 = any cfg m2.
Proof.
  intros H. unfold any, lanes.
  assert (G : forall l, (forall i, In i l -> i < packet_size cfg) ->
                        existsb m1 l = existsb m2 l).
  { induction l as [|j l IH]; intros Hl; simpl; [reflexivity|].
    rewrite (H j (Hl j (or_introl eq_refl))), IH; [reflexivity|].
    intros k Hk. apply Hl. right. exact Hk. }
  apply G. intros i Hi. apply in_seq in Hi. lia.
Qed.

(** What a lane receives from the emitters depends on that lane's inputs
    only. *)
Lemma emitter_sample_local (s : Scene) (ref1 ref2 : Packet Interaction3f)
  (sample1 sample2 : Packet Point2) (active1 active2 : Mask) (i : nat) :
  ref1 i = ref2 i -> sample1 i = sample2 i -> active1 i = active2 i ->
  emitter_sample s ref1 sample1 active1 i = emitter_sample s ref2 sample2 active2 i /\
  selection_pdf s sample1 active1 i = selection_pdf s sample2 active2 i /\
  tested_lanes s ref1 sample1 active1 i = tested_lanes s ref2 sample2 active2 i.
Proof.
  intros Hr Hs Ha.
  unfold tested_lanes, nonzero_pdf, emitter_sample, call_sample_direction, gather,
    selection_pdf, selected_index, reused_sample, sample_reuse_pdf. simpl.
  rewrite Hr, Hs, Ha. repeat split.
Qed.

Lemma shadow_hit_local (cfg : Config) (s : Scene) (ref1 ref2 : Packet Interaction3f)
  (sample1 sample2 : Packet Point2) (active1 active2 : Mask) (i : nat) :
  ref1 i = ref2 i -> sample1 i = sample2 i -> active1 i = active2 i ->
  shadow_hit cfg s ref1 sample1 active1 i = shadow_hit cfg s ref2 sample2 active2 i.
Proof.
  intros Hr Hs Ha.
  destruct (emitter_sample_local s ref1 ref2 sample1 sample2 active1 active2 i Hr Hs Ha)
    as (He & _ & Ht).
  unfold shadow_hit, ray_test, ray_test_gpu, ray_test_cpu, accel_ray_test.
  destruct (is_cuda_array cfg); rewrite He, Ht, Hr; reflexivity.
Qed.

(** C9. On a fixed scene, two calls whose reference points, samples and
    masks agree on every lane of the packet, with the same visibility flag,
    return the same direction sample and the same radiance on every lane of
    the packet. *)
Theorem sample_emitter_direction_deterministic (cfg : Config) (s : Scene)
  (ref1 ref2 : Packet Interaction3f) (sample1 sample2 : Packet Point2)
  (tv : bool) (active1 active2 : Mask) :
  (forall i, i < packet_size cfg ->
     ref1 i = ref2 i /\ sample1 i = sample2 i /\ active1 i = active2 i) ->
  forall i, i < packet_size cfg ->
    fst (sample_emitter_direction cfg s ref1 sample1 tv active1) i
      = fst (sample_emitter_direction cfg s ref2 sample2 tv active2) i /\
    snd (sample_emitter_direction cfg s ref1 sample1 tv active1) i
      = snd (sample_emitter_direction cfg s ref2 sample2 tv active2) i.
Proof.
  intros Hin i Hi.
  destruct (m_emitters s) as [|e0 l] eqn:Hem.
  - rewrite !sample_emitter_direction_empty by exact Hem. split; reflexivity.
  - assert (Hne : m_emitters s <> []) by (rewrite Hem; discriminate).
    destruct (sample_emitter_direction_steps cfg s ref1 sample1 tv active1 i Hne) as [Hd1 Hs1].
    destruct (sample_emitter_direction_steps cfg s ref2 sample2 tv active2 i Hne) as [Hd2 Hs2].
    destruct (Hin i Hi) as (Hr & Hs & Ha).
    destruct (emitter_sample_local s ref1 ref2 sample1 sample2 active1 active2 i Hr Hs Ha)
      as (He & Hp & _).
    assert (Hv : visibility_tested cfg s ref1 sample1 tv active1
                 = visibility_tested cfg s ref2 sample2 tv active2).
    { unfold visibility_tested, any_or_true. f_equal.
      destruct (is_cuda_array cfg); [reflexivity|].
      apply any_agree. intros j Hj. destruct (Hin j Hj) as (Hr' & Hs' & Ha').
      apply (emitter_sample_local s ref1 ref2 sample1 sample2 active1 active2 j Hr' Hs' Ha'). }
    rewrite Hd1, Hd2, Hs1, Hs2, He, Hp, Hv.
    rewrite (shadow_hit_local cfg s ref1 ref2 sample1 sample2 active1 active2 i Hr Hs Ha).
    split; reflexivity.
Qed.

(** ** Ray queries *)

(** C6. [ray_intersect_naive] answers by the configured backend: on the
    software structure it returns the brute-force intersection; on the
    hardware BVH and on the GPU backend it raises [NotImplementedError] and
    returns nothing. *)
Theorem ray_intersect_naive_by_backend (cfg : Config) (s : Scene)
  (ray : Packet Ray3f) (active : Mask) :
  ray_intersect_naive cfg s ray active =
  match backend_of cfg with
  | SoftwareStructure => inr (ray_intersect_naive_cpu s ray active)
  | HardwareBVH => inl (NotImplementedError "ray_intersect_naive")
  | GPUBackend => inl (NotImplementedError "ray_intersect_naive")
  end.
Proof.
  unfold ray_intersect_naive, backend_of.
  destruct (is_cuda_array cfg), (MTS_USE_EMBREE cfg); reflexivity.
Qed.

(** The search for the nearest hit finds one exactly when it started with
    one or some shape is hit. *)
Lemma nearest_hit_valid (shapes : list Shape) (k : nat) (ray : Ray3f)
  (best : SurfaceInteraction3f) :
  is_valid (nearest_hit shapes k ray best) = is_valid best || existsb (hits ray) shapes.
Proof.
  revert k best. induction shapes as [|shape rest IH]; intros k best; simpl.
  - rewrite orb_false_r. reflexivity.
  - rewrite IH. unfold closer, shape_hit, hits.
    destruct best as [[t n]|], (shape_ray_intersect shape ray) as [t'|]; simpl;
      try reflexivity.
    destruct (fltb t' t); reflexivity.
Qed.

(** C7. On every active lane, [ray_test] is set exactly when
    [ray_intersect] reports a hit, on the same scene, rays and mask. *)
Theorem ray_test_iff_ray_intersect_hits (cfg : Config) (s : Scene)
  (ray : Packet Ray3f) (active : Mask) (i : nat) :
  active i = true ->
  ray_test cfg s ray active i = true <->
  is_valid (ray_intersect cfg s ray active i) = true.
Proof.
  intros Ha.
  unfold ray_test, ray_intersect, ray_test_gpu, ray_test_cpu, ray_intersect_gpu,
    ray_intersect_cpu, accel_ray_test, accel_ray_intersect.
  destruct (is_cuda_array cfg); rewrite Ha, nearest_hit_valid; simpl; reflexivity.
Qed.

(** ** The constructor as a whole *)

(** What a scene that was constructed holds. *)
Lemma Scene_ctor_success (cfg : Config) (props : list (string * Object)) (s : Scene) :
  Scene_ctor (FT := FT) cfg props = inr s ->
  accel_supported cfg = true /\
  m_children s = map snd props /\
  m_emitters s = emitters_of props /\
  m_sensors s = (if is_empty (sensors_of props)
                 then [create_sensor (default_sensor_props (bbox_of props None))]
                 else sensors_of props) /\
  m_bbox s = bbox_of props None /\
  m_emitter_distr s = emitter_distribution (List.length (emitters_of props)) /\
  m_accel s = mkAccel (shapes_of props).
Proof.
  unfold Scene_ctor.
  destruct (add_objects props Scene_initial) as [e|s1] eqn:H; simpl; [discriminate|].
  apply add_objects_members in H. simpl in H.
  destruct H as (Hc & He & Hs & Hb & _).
  assert (Ha : forall r : Result Accel,
             (if is_cuda_array cfg then accel_init_gpu cfg props
              else accel_init_cpu cfg props) = r ->
             (accel_supported cfg = true /\ r = inr (mkAccel (shapes_of props))) \/
             (exists e, r = inl e)).
  { intros r <-. unfold accel_init_gpu, accel_init_cpu.
    destruct (is_cuda_array cfg), (accel_supported cfg); simpl; eauto. }
  destruct (Ha _ eq_refl) as [[Hsup ->]|[e ->]]; simpl; [|discriminate].
  intros [= <-]. rewrite Hs.
  destruct (sensors_of props) as [|sensor l]; simpl;
    destruct (m_integrator s1); simpl;
    rewrite ?Hc, ?He, ?Hb; repeat split; auto.
Qed.

(** The constructor succeeds as soon as the loop and the backend do. *)
Lemma Scene_ctor_runs (cfg : Config) (props : list (string * Object)) (s1 : Scene) :
  add_objects props Scene_initial = inr s1 ->
  accel_supported cfg = true ->
  exists s, Scene_ctor (FT := FT) cfg props = inr s.
Proof.
  intros H Hsup. unfold Scene_ctor, accel_init_gpu, accel_init_cpu.
  rewrite H, Hsup. simpl. destruct (is_cuda_array cfg); simpl; eauto.
Qed.

Lemma count_environment_le_emitters (props : list (string * Object)) :
  count_environment props <= List.length (emitters_of props).
Proof.
  induction props as [|kv l IH]; [apply le_n|].
  rewrite count_environment_cons. unfold emitters_of in *. simpl.
  rewrite length_app. destruct kv as [name o].
  destruct o; unfold is_environment_emitter; simpl; try lia.
  destruct (is_environment e); simpl; lia.
Qed.

(** When the constructor throws, either the loop threw or the backend is
    not available. *)
Lemma Scene_ctor_error (cfg : Config) (props : list (string * Object)) (e : Exception) :
  Scene_ctor (FT := FT) cfg props = inl e ->
  add_objects props Scene_initial = inl e \/
  (e = accel_error /\ accel_supported cfg = false).
Proof.
  unfold Scene_ctor, accel_init_gpu, accel_init_cpu.
  destruct (add_objects props Scene_initial) as [e1|s1]; simpl.
  - intros [= ->]. left. reflexivity.
  - destruct (is_cuda_array cfg), (accel_supported cfg); simpl;
      intros H; try discriminate; injection H as <-; right; split; reflexivity.
Qed.

(** C10. On a collection that contributes no emitter the constructor
    throws only for a reason that has nothing to do with emitters: a second
    integrator, or a backend that is not available.  Otherwise it
    constructs a scene that has no emitter; its distribution is the empty
    one, on which [normalize] was not run; [sample_emitter_direction] gives
    the same answer whatever the distribution holds, so it never reads it;
    and the ray queries answer from the backend built over all the shapes. *)
Theorem Scene_ctor_without_emitters (cfg : Config) (props : list (string * Object)) :
  emitters_of props = [] ->
  (forall e, Scene_ctor (FT := FT) cfg props = inl e ->
     (e = integrator_error /\ 2 <= count_integrators props) \/
     (e = accel_error /\ accel_supported cfg = false)) /\
  (count_integrators props <= 1 ->
   accel_supported cfg = true ->
   exists s : Scene,
     Scene_ctor (FT := FT) cfg props = inr s /\
     m_emitters s = [] /\
     m_emitter_distr s = DiscreteDistribution_new 0 /\
     m_normalized (m_emitter_distr s) = false /\
     (forall d ref sample tv active,
        sample_emitter_direction cfg (set_emitter_distr s d) ref sample tv active
        = sample_emitter_direction cfg s ref sample tv active) /\
     (forall ray active,
        ray_intersect cfg s ray active
          = accel_ray_intersect (mkAccel (shapes_of props)) ray active /\
        ray_test cfg s ray active
          = accel_ray_test (mkAccel (shapes_of props)) ray active)).
Proof.
  intros Hem.
  pose proof (count_environment_le_emitters props) as Hle. rewrite Hem in Hle. simpl in Hle.
  split.
  - intros e He. destruct (Scene_ctor_error cfg props e He) as [Hl|Ha]; [left | right; exact Ha].
    apply add_objects_error in Hl. simpl in Hl.
    destruct Hl as [[_ Hl]|Hl]; [lia | exact Hl].
  - intros Hint Hsup.
    destruct (add_objects_ok props Scene_initial) as [s1 Hs1]; simpl; [lia | lia |].
    destruct (Scene_ctor_runs cfg props s1 Hs1 Hsup) as [s Hs].
    exists s. split; [exact Hs|].
    destruct (Scene_ctor_success cfg props s Hs) as (_ & _ & He & _ & _ & Hd & Ha).
    rewrite Hem in He, Hd. simpl in Hd.
    repeat split.
    + exact He.
    + rewrite Hd. reflexivity.
    + rewrite Hd. reflexivity.
    + intros d ref sample tv active.
      rewrite !sample_emitter_direction_empty; auto.
    + unfold ray_intersect, ray_intersect_gpu, ray_intersect_cpu. rewrite Ha.
      destruct (is_cuda_array cfg); reflexivity.
    + unfold ray_test, ray_test_gpu, ray_test_cpu. rewrite Ha.
      destruct (is_cuda_array cfg); reflexivity.
Qed.

(** ** The distribution of a constructed scene *)

Lemma distr_size_appends {A : Type} (w : F) (l : list A) (d : DiscreteDistribution) :
  distr_size (fold_left (fun d _ => distr_append d w) l d) = distr_size d + List.length l.
Proof.
  revert d. induction l as [|a l IH]; intros d; simpl; [lia|].
  rewrite IH. unfold distr_size, distr_append. simpl. rewrite length_app. simpl. lia.
Qed.

Lemma distr_size_emitter_distribution (n : nat) :
  distr_size (emitter_distribution n) = n.
Proof.
  unfold emitter_distribution.
  destruct (0 <? n); unfold distr_normalize, distr_size at 1; simpl;
    rewrite ?length_map; fold (distr_size (fold_left (fun d _ => distr_append d (flit 1))
                                             (seq 0 n) (DiscreteDistribution_new n)));
    rewrite distr_size_appends, length_seq; reflexivity.
Qed.

Lemma distr_sample_in_range (d : DiscreteDistribution) (x : F) :
  0 < distr_size d -> distr_sample d x < distr_size d.
Proof. intros H. unfold distr_sample. lia. Qed.

(** On a constructed scene with emitters every lane selects an emitter of
    the scene. *)
Lemma Scene_ctor_selects_an_emitter (cfg : Config) (props : list (string * Object))
  (s : Scene) (sample : Packet Point2) (active : Mask) (i : nat) :
  Scene_ctor (FT := FT) cfg props = inr s ->
  m_emitters s <> [] ->
  exists e, nth_error (m_emitters s) (selected_index s sample active i) = Some e.
Proof.
  intros Hs Hne.
  destruct (Scene_ctor_success cfg props s Hs) as (_ & _ & He & _ & _ & Hd & _).
  assert (Hlt : selected_index s sample active i < List.length (m_emitters s)).
  { unfold selected_index, sample_reuse_pdf. simpl. rewrite Hd, He.
    rewrite <- (distr_size_emitter_distribution (List.length (emitters_of props))) at 2.
    apply distr_sample_in_range. rewrite distr_size_emitter_distribution.
    rewrite <- He. destruct (m_emitters s); [congruence | simpl; lia]. }
  destruct (nth_error (m_emitters s) (selected_index s sample active i)) as [e|] eqn:Hn.
  - eauto.
  - apply nth_error_None in Hn. lia.
Qed.

End Properties.

(** * Over the reals: the default camera and the emitter distribution *)

Section OverTheReals.

Context {Spectrum Wavelength SampleAux : Type}.

Local Abbreviation Scene := (@Scene R Spectrum Wavelength SampleAux).
Local Abbreviation Object := (@Object R Spectrum Wavelength SampleAux).

Lemma Q2R_literals :
  Q2R 0 = 0%R /\ Q2R 1 = 1%R /\ Q2R 2 = 2%R /\ Q2R 5 = 5%R /\ Q2R 45 = 45%R /\
  Q2R 100 = 100%R /\ Q2R 180 = 180%R /\ Q2R (1 # 2) = (1 / 2)%R.
Proof. unfold Q2R; simpl; repeat split; lra. Qed.

(** C5. When no sensor was registered and the bounding box is valid, the
    scene holds one sensor, a perspective camera with a field of view of 45
    degrees.  With [d = max(extent) / (2 tan(22.5 degrees))]: the camera
    sits on the axis through the centre of the box along which its depth
    ([z]) extends, [d] in front of the face of least depth; near clip is
    [d / 100], far clip [max(extent) * 5 + d], and the focus distance [d]
    plus half the extent in depth. *)
Theorem default_sensor_frames_the_box (cfg : Config) (props : list (string * Object))
  (s : Scene) (lo hi : @Point3 R) :
  Scene_ctor cfg props = inr s ->
  sensors_of props = [] ->
  m_bbox s = Some (lo, hi) ->
  let extent_x := (p3_x hi - p3_x lo)%R in
  let extent_y := (p3_y hi - p3_y lo)%R in
  let extent_z := (p3_z hi - p3_z lo)%R in
  let extent_max := Rmax (Rmax extent_x extent_y) extent_z in
  let d := (extent_max / (2 * tan (22.5 * PI / 180)))%R in
  exists sensor : Sensor,
    m_sensors s = [sensor] /\
    plugin_name (sensor_props sensor) = "perspective" /\
    get_float "fov" (sensor_props sensor) = Some 45%R /\
    get_float "near_clip" (sensor_props sensor) = Some (d / 100)%R /\
    get_float "far_clip" (sensor_props sensor) = Some (extent_max * 5 + d)%R /\
    get_float "focus_distance" (sensor_props sensor) = Some (d + extent_z / 2)%R /\
    get_transform "to_world" (sensor_props sensor)
      = Some (translate (mkPoint3 ((p3_x hi + p3_x lo) / 2)%R
                                  ((p3_y hi + p3_y lo) / 2)%R
                                  (p3_z lo - d)%R)).
Proof.
  intros Hs Hno Hbox extent_x extent_y extent_z extent_max d.
  destruct (Scene_ctor_success cfg props s Hs) as (_ & _ & _ & Hsen & Hb & _).
  rewrite Hno in Hsen. simpl in Hsen. rewrite <- Hb, Hbox in Hsen.
  eexists. split; [exact Hsen|].
  destruct Q2R_literals as (L0 & L1 & L2 & L5 & L45 & L100 & L180 & Lhalf).
  assert (Hd : (hmax (bbox_extents (lo, hi)) /
                (Q2R 2 * tan (Q2R 45 * Q2R (1 # 2) * PI / Q2R 180)))%R = d).
  { unfold d, extent_max, extent_x, extent_y, extent_z, hmax, bbox_extents. simpl.
    rewrite L2. f_equal. f_equal. f_equal. rewrite L45, L180, Lhalf. lra. }
  unfold default_sensor_props, create_sensor, get_float, get_transform. simpl.
  unfold hmax, bbox_extents in Hd. simpl in Hd.
  rewrite !Hd, L45, L100, L5, L2, Lhalf.
  repeat split; f_equal; try (unfold extent_max; lra).
  f_equal. f_equal; lra.
Qed.

(** ** Uniform weights, normalised *)

(** The distribution as it is before [normalize]: [n] appended weights. *)
Lemma appended_weights (n : nat) :
  let d := fold_left (fun d _ => distr_append d (flit 1)) (seq 0 n)
                     (DiscreteDistribution_new (F := R) n) in
  List.length (m_cdf d) = n /\
  (forall j, j < n -> nth j (m_cdf d) (Q2R 0) = INR (S j)) /\
  distr_sum d = INR n /\
  m_normalized d = false.
Proof.
  induction n as [|n IH].
  - simpl. unfold distr_sum. simpl. repeat split; try (unfold Q2R; simpl; lra).
    intros j Hj. lia.
  - cbv zeta in *. rewrite seq_S, fold_left_app. simpl.
    set (dn := fold_left (fun d _ => distr_append d (Q2R 1)) (seq 0 n)
                         (DiscreteDistribution_new (S n))).
    assert (Hdn : dn = fold_left (fun d _ => distr_append d (flit 1)) (seq 0 n)
                                 (DiscreteDistribution_new (F := R) n)) by reflexivity.
    rewrite <- Hdn in IH. destruct IH as (Hlen & Hnth & Hsum & Hnorm).
    assert (Hnew : (distr_sum dn + Q2R 1)%R = INR (S n)).
    { rewrite Hsum, S_INR. unfold Q2R; simpl; lra. }
    unfold distr_append. cbn -[INR]. rewrite Hnew. repeat split.
    + rewrite length_app, Hlen. simpl. lia.
    + intros j Hj. destruct (Nat.eq_dec j n) as [->|Hne].
      * rewrite app_nth2 by lia. rewrite Hlen, Nat.sub_diag. reflexivity.
      * rewrite app_nth1 by lia. apply Hnth. lia.
    + unfold distr_sum. cbn -[INR]. apply last_last.
    + exact Hnorm.
Qed.

Lemma cdf_before_appended (n i : nat) :
  i <= n ->
  cdf_before (fold_left (fun d _ => distr_append d (flit 1)) (seq 0 n)
                        (DiscreteDistribution_new (F := R) n)) i = INR i.
Proof.
  intros Hi. destruct (appended_weights n) as (_ & Hnth & _).
  destruct i as [|j]; unfold cdf_before.
  - cbn -[INR]. unfold Q2R; simpl; lra.
  - apply Hnth. lia.
Qed.

(** After [normalize], the cumulative weight before item [i] is [i / n]. *)
Lemma cdf_before_normalized (n i : nat) :
  0 < n -> i <= n ->
  cdf_before (emitter_distribution (F := R) n) i = (INR i * (1 / INR n))%R.
Proof.
  intros Hn Hi. unfold emitter_distribution.
  apply Nat.ltb_lt in Hn. rewrite Hn.
  destruct (appended_weights n) as (Hlen & Hnth & Hsum & _). cbv zeta in *.
  set (d := fold_left (fun d _ => distr_append d (flit 1)) (seq 0 n)
                      (DiscreteDistribution_new (F := R) n)) in *.
  destruct i as [|j]; unfold cdf_before, distr_normalize; cbn -[INR].
  - unfold Q2R; simpl; lra.
  - rewrite Hsum.
    rewrite (nth_indep _ (Q2R 0) ((Q2R 0) * (Q2R 1 / INR n))%R)
      by (rewrite length_map; lia).
    rewrite (map_nth (fun c : R => (c * (Q2R 1 / INR n))%R)).
    rewrite Hnth by lia. unfold Q2R; simpl. f_equal. lra.
Qed.

Lemma emitter_distribution_pdf (n i : nat) :
  i < n -> distr_pdf (emitter_distribution (F := R) n) i = (1 / INR n)%R.
Proof.
  intros Hi. unfold distr_pdf.
  rewrite !cdf_before_normalized by lia. rewrite S_INR.
  cbn -[INR]. field. apply not_0_INR. lia.
Qed.

Lemma sum_of_equal_terms (f : nat -> R) (c : R) (l : list nat) :
  (forall i, In i l -> f i = c) ->
  fold_right Rplus 0%R (map f l) = (INR (List.length l) * c)%R.
Proof.
  induction l as [|a l IH]; intros H.
  - simpl. lra.
  - change (fold_right Rplus 0%R (map f (a :: l)))
      with (f a + fold_right Rplus 0%R (map f l))%R.
    change (List.length (a :: l)) with (S (List.length l)).
    rewrite S_INR, IH by (intros i Hi; apply H; right; exact Hi).
    rewrite (H a) by (left; reflexivity). lra.
Qed.

(** C8. On a scene constructed with [n > 0] emitters: the distribution was
    given the weight 1 for each emitter and then normalised; every emitter
    has probability [1 / n]; the probabilities add up to 1; and [1 / n] is
    the selection probability every lane is handed when sampling. *)
Theorem emitter_distribution_is_uniform (cfg : Config) (props : list (string * Object))
  (s : Scene) :
  Scene_ctor cfg props = inr s ->
  0 < List.length (m_emitters s) ->
  let n := List.length (m_emitters s) in
  let weights := fold_left (fun d _ => distr_append d (flit 1)) (seq 0 n)
                           (DiscreteDistribution_new (F := R) n) in
  (forall i, i < n -> distr_pdf weights i = 1%R) /\
  m_emitter_distr s = distr_normalize weights /\
  (forall i, i < n -> distr_pdf (m_emitter_distr s) i = (1 / INR n)%R) /\
  fold_right Rplus 0%R (map (distr_pdf (m_emitter_distr s)) (seq 0 n)) = 1%R /\
  (forall (sample : Packet Point2) (active : Mask) (lane : nat),
     selection_pdf s sample active lane = (1 / INR n)%R).
Proof.
  intros Hs Hn n weights.
  destruct (Scene_ctor_success cfg props s Hs) as (_ & _ & He & _ & _ & Hd & _).
  rewrite <- He in Hd. fold n in Hd, Hn.
  assert (Hpdf : forall i, i < n -> distr_pdf (m_emitter_distr s) i = (1 / INR n)%R).
  { intros i Hi. rewrite Hd. apply emitter_distribution_pdf. exact Hi. }
  repeat split.
  - intros i Hi. unfold distr_pdf, weights.
    rewrite !cdf_before_appended by lia. rewrite S_INR. cbn -[INR]. lra.
  - rewrite Hd. unfold emitter_distribution.
    apply Nat.ltb_lt in Hn. rewrite Hn. reflexivity.
  - exact Hpdf.
  - rewrite (sum_of_equal_terms _ (1 / INR n)%R).
    + rewrite length_seq. field. apply not_0_INR. lia.
    + intros i Hi. apply in_seq in Hi. apply Hpdf. lia.
  - intros sample active lane. unfold selection_pdf, sample_reuse_pdf. cbn -[INR].
    apply Hpdf. rewrite Hd.
    rewrite <- (distr_size_emitter_distribution n) at 2.
    apply distr_sample_in_range. rewrite distr_size_emitter_distribution. exact Hn.
Qed.

End OverTheReals.

(** * The definitions at work *)

Section Runs.

Local Abbreviation q_sample_emitter_direction :=
  (sample_emitter_direction (F := Q) tt q_epsilon q_shadow_epsilon q_config).
Local Abbreviation r_sample_emitter_direction :=
  (sample_emitter_direction (F := R) tt r_epsilon r_shadow_epsilon r_config).

(** Two lamps, the wall between them and the reference point: lane 0 selects
    the first lamp with probability 1/2; its pdf 1/2 becomes 1/4; its
    radiance 3 + 1/3 is doubled when visibility is not tested and zero when
    it is. *)
Example q_scene_lane0_untested :
  selected_index q_scene q_sample all_lanes 0 = 0 /\
  fst (q_sample_emitter_direction q_scene q_ref q_sample false all_lanes) 0
    = mkDS (mkPoint3 0 0 1)%Q 2%Q (1 # 4)%Q tt /\
  snd (q_sample_emitter_direction q_scene q_ref q_sample false all_lanes) 0 = (20 # 3)%Q.
Proof. repeat split. Qed.

Example q_scene_lane0_tested :
  fst (q_sample_emitter_direction q_scene q_ref q_sample true all_lanes) 0
    = mkDS (mkPoint3 0 0 1)%Q 2%Q (1 # 4)%Q tt /\
  snd (q_sample_emitter_direction q_scene q_ref q_sample true all_lanes) 0 = 0%Q.
Proof. repeat split. Qed.

(** Lane 3 draws above one half and selects the second lamp. *)
Example q_scene_lane3 :
  selected_index q_scene q_sample all_lanes 3 = 1 /\
  ds_dist (fst (q_sample_emitter_direction q_scene q_ref q_sample false all_lanes) 3) = 5%Q /\
  snd (q_sample_emitter_direction q_scene q_ref q_sample false all_lanes) 3 = (32 # 2)%Q.
Proof. repeat split. Qed.

(** Two environment emitters: the second one throws. *)
Example two_skies_throw :
  Scene_ctor r_config r_two_skies = inl environment_error.
Proof. reflexivity. Qed.

(** Two integrators ahead of the second environment emitter: the second
    integrator throws first. *)
Example two_integrators_throw_first :
  Scene_ctor r_config r_two_integrators_first = inl integrator_error.
Proof. reflexivity. Qed.

Example naive_on_embree_not_implemented :
  ray_intersect_naive (mkConfig false true 4 true) q_scene q_rays all_lanes
  = inl (NotImplementedError "ray_intersect_naive").
Proof. reflexivity. Qed.

Example naive_on_software_structure :
  exists si, ray_intersect_naive q_config q_scene q_rays all_lanes = inr si /\
             si 0 = Some (1%Q, 1).
Proof. eexists. split; reflexivity. Qed.

(** Witness of C1: the scene without emitters. *)
Lemma sample_emitter_direction_no_emitters_witness :
  m_emitters q_dark_scene = [] /\
  forall i : nat,
    fst (q_sample_emitter_direction q_dark_scene q_ref q_sample true all_lanes) i
      = DirectionSample3f_default tt /\
    ds_pdf (fst (q_sample_emitter_direction q_dark_scene q_ref q_sample true all_lanes) i)
      = 0%Q /\
    snd (q_sample_emitter_direction q_dark_scene q_ref q_sample true all_lanes) i = 0%Q.
Proof.
  split; [reflexivity|].
  exact (sample_emitter_direction_no_emitters tt q_epsilon q_shadow_epsilon q_config
           q_dark_scene q_ref q_sample true all_lanes eq_refl).
Defined.

(** Witness of C2: lane 0 of the two-lamp scene, visibility tested. *)
Lemma sample_emitter_direction_accounts_for_selection_witness :
  ds_pdf (fst (q_sample_emitter_direction q_scene q_ref q_sample true all_lanes) 0)
    = ((1 # 2) * selection_pdf q_scene q_sample all_lanes 0%nat)%Q /\
  snd (q_sample_emitter_direction q_scene q_ref q_sample true all_lanes) 0
    = (0 * / selection_pdf q_scene q_sample all_lanes 0%nat)%Q.
Proof.
  assert (Hne : m_emitters q_scene <> []) by discriminate.
  exact (sample_emitter_direction_accounts_for_selection tt q_epsilon q_shadow_epsilon
           q_config q_scene q_ref q_sample true all_lanes 0 q_lamp_a Hne eq_refl eq_refl).
Defined.

(** Witness of C7: lane 0 of a packet of rays through the two-lamp scene. *)
Lemma ray_test_iff_ray_intersect_hits_witness :
  all_lanes 0 = true /\
  (ray_test q_config q_scene q_rays all_lanes 0 = true <->
   is_valid (ray_intersect q_config q_scene q_rays all_lanes 0) = true).
Proof.
  split; [reflexivity|].
  exact (ray_test_iff_ray_intersect_hits q_config q_scene q_rays all_lanes 0 eq_refl).
Defined.

(** Witness of C9: two calls whose samples agree on the four lanes of the
    packet and differ beyond them, compared on the last lane. *)
Lemma sample_emitter_direction_deterministic_witness :
  q_sample 4 <> q_sample' 4 /\
  fst (q_sample_emitter_direction q_scene q_ref q_sample true all_lanes) 3
    = fst (q_sample_emitter_direction q_scene q_ref q_sample' true all_lanes) 3 /\
  snd (q_sample_emitter_direction q_scene q_ref q_sample true all_lanes) 3
    = snd (q_sample_emitter_direction q_scene q_ref q_sample' true all_lanes) 3.
Proof.
  split; [discriminate|].
  assert (Hin : forall i, i < packet_size q_config ->
                 q_ref i = q_ref i /\ q_sample i = q_sample' i /\ all_lanes i = all_lanes i).
  { intros i Hi. repeat split.
    unfold q_sample'. apply Nat.ltb_lt in Hi. simpl in Hi. rewrite Hi. reflexivity. }
  assert (Hlane : 3 < packet_size q_config) by apply le_n.
  exact (sample_emitter_direction_deterministic tt q_epsilon q_shadow_epsilon q_config
           q_scene q_ref q_ref q_sample q_sample' true all_lanes all_lanes Hin 3 Hlane).
Defined.

(** Witness of C4: two environment emitters. *)
Lemma second_environment_emitter_is_fatal_witness :
  2 <= count_environment r_two_skies /\
  exists e, Scene_ctor r_config r_two_skies = inl e.
Proof.
  assert (H : 2 <= count_environment r_two_skies) by apply le_n.
  split; [exact H|].
  exact (proj1 (second_environment_emitter_is_fatal r_config r_two_skies H)).
Defined.

(** Witness of C10: the box alone, no emitter and no integrator. *)
Lemma Scene_ctor_without_emitters_witness :
  emitters_of r_unit_box = [] /\
  exists s,
    Scene_ctor r_config r_unit_box = inr s /\
    m_emitters s = [] /\
    m_normalized (m_emitter_distr s) = false.
Proof.
  split; [reflexivity|].
  assert (Hint : count_integrators r_unit_box <= 1) by (apply le_S, le_n).
  destruct (proj2 (Scene_ctor_without_emitters tt r_epsilon r_shadow_epsilon r_config
                     r_unit_box eq_refl) Hint eq_refl) as (s & Hs & He & _ & Hn & _).
  exists s. repeat split; assumption.
Defined.

(** Witness of C5: the box from [-1, -1, -1] to [1, 1, 1] and no sensor.
    The camera looks from [(0, 0, -1 - d)]; near clip is [d / 100]. *)
Lemma default_sensor_frames_the_box_witness :
  exists sensor,
    m_sensors (constructed r_config r_unit_box) = [sensor] /\
    get_float "fov" (sensor_props sensor) = Some 45%R /\
    get_float "near_clip" (sensor_props sensor) = Some (unit_box_distance / 100)%R /\
    get_float "far_clip" (sensor_props sensor) = Some (10 + unit_box_distance)%R /\
    get_float "focus_distance" (sensor_props sensor) = Some (unit_box_distance + 1)%R /\
    get_transform "to_world" (sensor_props sensor)
      = Some (translate (mkPoint3 0 0 (-1 - unit_box_distance))%R).
Proof.
  destruct (default_sensor_frames_the_box r_config r_unit_box
              (constructed r_config r_unit_box)
              (mkPoint3 (-1) (-1) (-1))%R (mkPoint3 1 1 1)%R eq_refl eq_refl eq_refl)
    as (sensor & Hs & _ & Hfov & Hnear & Hfar & Hfocus & Hto).
  cbn [p3_x p3_y p3_z] in *.
  assert (Hmax : Rmax (Rmax (1 - -1) (1 - -1)) (1 - -1) = 2%R).
  { unfold Rmax. repeat destruct Rle_dec; lra. }
  rewrite Hmax in *. fold unit_box_distance in *.
  exists sensor. split; [exact Hs|]. split; [exact Hfov|]. split; [exact Hnear|].
  split; [|split].
  - rewrite Hfar; f_equal; lra.
  - rewrite Hfocus; f_equal; lra.
  - rewrite Hto; f_equal; f_equal; f_equal; lra.
Defined.

(** Witness of C8: two lamps, each selected with probability one half. *)
Lemma emitter_distribution_is_uniform_witness :
  0 < List.length (m_emitters (constructed r_config r_two_lamps)) /\
  (forall i, i < 2 ->
     distr_pdf (m_emitter_distr (constructed r_config r_two_lamps)) i = (1 / 2)%R) /\
  (distr_pdf (m_emitter_distr (constructed r_config r_two_lamps)) 0 +
   (distr_pdf (m_emitter_distr (constructed r_config r_two_lamps)) 1 + 0))%R = 1%R.
Proof.
  assert (Hpos : 0 < List.length (m_emitters (constructed r_config r_two_lamps)))
    by (apply le_S, le_n).
  destruct (emitter_distribution_is_uniform r_config r_two_lamps
              (constructed r_config r_two_lamps) eq_refl Hpos)
    as (_ & _ & Hpdf & Hsum & _).
  repeat split.
  - exact Hpos.
  - intros i Hi. rewrite (Hpdf i Hi).
    change (List.length (m_emitters (constructed r_config r_two_lamps))) with 2.
    change (INR 2) with (1 + 1)%R. lra.
  - exact Hsum.
Defined.

(** Witness of C3: one lamp, a wall every shadow ray hits. *)
Lemma occluded_lane_only_loses_radiance_witness :
  shadow_hit tt r_epsilon r_shadow_epsilon r_config
             (constructed r_config r_lamp_behind_wall) r_ref r_sample all_lanes 0 = true /\
  snd (r_sample_emitter_direction (constructed r_config r_lamp_behind_wall)
         r_ref r_sample true all_lanes) 0 = Q2R 0 /\
  ds_pdf (fst (r_sample_emitter_direction
                 (set_accel (constructed r_config r_lamp_behind_wall) (mkAccel []))
                 r_ref r_sample true all_lanes) 0)
  = ds_pdf (fst (r_sample_emitter_direction (constructed r_config r_lamp_behind_wall)
                   r_ref r_sample true all_lanes) 0).
Proof.
  assert (Hzero : forall x : R, spec_scale (F := R) spec_zero x = spec_zero).
  { intros x. cbn. unfold Q2R. simpl. lra. }
  assert (Hne : m_emitters (constructed r_config r_lamp_behind_wall) <> [])
    by discriminate.
  assert (Hlane : 0 < packet_size r_config) by apply le_n.
  assert (Hidx : selected_index (constructed r_config r_lamp_behind_wall)
                                r_sample all_lanes 0 = 0).
  { unfold selected_index, sample_reuse_pdf, distr_sample. cbn [fst snd].
    change (distr_size (m_emitter_distr (constructed r_config r_lamp_behind_wall)) - 1)
      with 0.
    apply Nat.min_0_r. }
  assert (Hes : emitter_sample tt (constructed r_config r_lamp_behind_wall)
                               r_ref r_sample all_lanes 0
                = (mkDS (mkPoint3 0 0 1) 2 (1 / 2) tt, 3)%R).
  { rewrite (emitter_sample_active tt (constructed r_config r_lamp_behind_wall)
               r_ref r_sample all_lanes 0 r_lamp_a eq_refl); [reflexivity|].
    rewrite Hidx. reflexivity. }
  assert (Hhit : shadow_hit tt r_epsilon r_shadow_epsilon r_config
                   (constructed r_config r_lamp_behind_wall) r_ref r_sample all_lanes 0
                 = true).
  { unfold shadow_hit, ray_test.
    change (is_cuda_array r_config) with false. cbv iota.
    unfold ray_test_cpu, accel_ray_test, tested_lanes, nonzero_pdf.
    rewrite Hes. cbn [fst ds_pdf].
    apply andb_true_iff. split; [|reflexivity].
    change (fneq (1 / 2)%R (flit 0))
      with (if Req_dec_T (1 / 2) (Q2R 0) then false else true).
    destruct (Req_dec_T (1 / 2) (Q2R 0)) as [H|H]; [|reflexivity].
    unfold Q2R in H. simpl in H. lra. }
  destruct (occluded_lane_only_loses_radiance tt r_epsilon r_shadow_epsilon r_config
              (constructed r_config r_lamp_behind_wall) r_ref r_sample all_lanes 0
              Hzero Hne Hlane Hhit) as (Hrad & Hframe & _).
  split; [exact Hhit|]. split; [exact Hrad|].
  exact (f_equal ds_pdf (Hframe (mkAccel []) true)).
Defined.

End Runs.

(** * Further properties of the constructor *)

Section Construction.

Context {F : Type} {FO : FloatOps F}.
Context {Spectrum : Type} {SO : SpectrumOps F Spectrum}.
Context {Wavelength : Type}.
Context {SampleAux : Type} (aux_zero : SampleAux).
Context {FT : FloatTrig F}.
Context (Epsilon ShadowEpsilon : F).

Local Abbreviation Scene := (@Scene F Spectrum Wavelength SampleAux).
Local Abbreviation Object := (@Object F Spectrum Wavelength SampleAux).
Local Abbreviation Emitter := (@Emitter F Spectrum Wavelength SampleAux).
Local Abbreviation Shape := (@Shape F Spectrum Wavelength SampleAux).

(** A run of the loop that does not throw met at most one environment
    emitter and at most one integrator. *)
Lemma add_objects_counts (l : list (string * Object)) (s s' : Scene) :
  add_objects l s = inr s' ->
  set_count (m_environment s) + count_environment l <= 1 /\
  set_count (m_integrator s) + count_integrators l <= 1.
Proof.
  intros H. apply add_objects_members in H.
  destruct H as (_ & _ & _ & _ & He & Hi & _).
  rewrite <- He, <- Hi. split; apply set_count_le.
Qed.

(** The constructor returns a scene exactly when the loop does and the
    backend is available. *)
Lemma Scene_ctor_succeeds_iff (cfg : Config) (props : list (string * Object)) :
  (exists s, Scene_ctor (FT := FT) cfg props = inr s) <->
  (exists s1, add_objects props Scene_initial = inr s1) /\ accel_supported cfg = true.
Proof.
  split.
  - intros [s Hs]. split.
    + destruct (add_objects props Scene_initial) as [e|s1] eqn:Hl; [|eauto].
      rewrite (Scene_ctor_loop_error cfg props e Hl) in Hs. discriminate.
    + apply (Scene_ctor_success cfg props s Hs).
  - intros [[s1 Hs1] Hsup]. apply (Scene_ctor_runs cfg props s1 Hs1 Hsup).
Qed.

(** X1. A collection with two or more integrators never yields a scene;
    when it holds at most one environment emitter, what the constructor
    throws is the integrator error. *)
Theorem second_integrator_is_fatal (cfg : Config) (props : list (string * Object)) :
  2 <= count_integrators props ->
  (exists e, Scene_ctor (FT := FT) cfg props = inl e) /\
  (count_environment props <= 1 ->
   Scene_ctor (FT := FT) cfg props = inl integrator_error).
Proof.
  intros H2.
  destruct (add_objects props Scene_initial) as [e|s1] eqn:Hl.
  - split; [exists e; apply Scene_ctor_loop_error; exact Hl|].
    intros He. apply Scene_ctor_loop_error. rewrite Hl.
    apply add_objects_error in Hl. simpl in Hl.
    destruct Hl as [[_ Hl]|[-> _]]; [lia | reflexivity].
  - apply add_objects_counts in Hl. simpl in Hl. lia.
Qed.

(** X2. With at most one integrator in the collection, two or more
    environment emitters make the constructor throw the
    environment-emitter error. *)
Theorem environment_error_when_integrators_fit
  (cfg : Config) (props : list (string * Object)) :
  2 <= count_environment props ->
  count_integrators props <= 1 ->
  Scene_ctor (FT := FT) cfg props = inl environment_error.
Proof.
  intros H2 Hi.
  destruct (add_objects props Scene_initial) as [e|s1] eqn:Hl.
  - apply Scene_ctor_loop_error. rewrite Hl.
    apply add_objects_error in Hl. simpl in Hl.
    destruct Hl as [[-> _]|[_ Hl]]; [reflexivity | lia].
  - apply add_objects_counts in Hl. simpl in Hl. lia.
Qed.

(** X3. On a machine where the backend is available, the constructor
    returns a scene exactly when the collection holds at most one
    environment emitter and at most one integrator. *)
Theorem Scene_ctor_succeeds_exactly_when (cfg : Config) (props : list (string * Object)) :
  accel_supported cfg = true ->
  ((exists s, Scene_ctor (FT := FT) cfg props = inr s) <->
   count_environment props <= 1 /\ count_integrators props <= 1).
Proof.
  intros Hsup. rewrite Scene_ctor_succeeds_iff. split.
  - intros [[s1 Hs1] _]. apply add_objects_counts in Hs1. simpl in Hs1. exact Hs1.
  - intros [He Hi]. split; [|exact Hsup].
    apply add_objects_ok; simpl; assumption.
Qed.

Lemma count_environment_perm (l l' : list (string * Object)) :
  Permutation l l' ->
  count_environment l = count_environment l' /\
  count_integrators l = count_integrators l'.
Proof.
  induction 1 as [|x l l' _ [IHe IHi]|x y l|l l' l'' _ [IHe IHi] _ [IHe' IHi']].
  - split; reflexivity.
  - rewrite !count_environment_cons, !count_integrators_cons, IHe, IHi. split; reflexivity.
  - rewrite !count_environment_cons, !count_integrators_cons. split; lia.
  - split; congruence.
Qed.

(** X4. Whether the constructor returns a scene does not depend on the
    order in which the collection hands over its objects. *)
Theorem Scene_ctor_success_ignores_order (cfg : Config)
  (props props' : list (string * Object)) :
  Permutation props props' ->
  ((exists s, Scene_ctor (FT := FT) cfg props = inr s) <->
   (exists s', Scene_ctor (FT := FT) cfg props' = inr s')).
Proof.
  intros Hp. destruct (count_environment_perm props props' Hp) as [He Hi].
  rewrite !Scene_ctor_succeeds_iff.
  assert (G : forall l l' : list (string * Object),
             count_environment l = count_environment l' ->
             count_integrators l = count_integrators l' ->
             (exists s1, add_objects l Scene_initial = inr s1) ->
             exists s1', add_objects l' Scene_initial = inr s1').
  { intros l l' Hce Hci [s1 Hs1]. apply add_objects_counts in Hs1. simpl in Hs1.
    apply add_objects_ok; simpl; lia. }
  split; intros [Hl Hsup]; (split; [|exact Hsup]).
  - apply (G props props'); assumption.
  - apply (G props' props); auto.
Qed.

(** What one step of the loop does to the two single-object members. *)
Lemma add_object_pointers (s s1 : Scene) (kv : string * Object) :
  add_object s kv = inr s1 ->
  m_integrator s1 = match m_integrator s with
                    | Some i => Some i
                    | None => as_integrator (snd kv)
                    end /\
  m_environment s1 = match m_environment s with
                     | Some e => Some e
                     | None => environment_of_object (snd kv)
                     end.
Proof.
  destruct kv as [name o]. unfold add_object, environment_of_object.
  destruct o as [shape|e|sensor|integ|descr]; simpl.
  - destruct (is_emitter shape), (is_sensor shape); intros [= <-]; simpl;
      destruct (m_integrator s), (m_environment s); auto.
  - destruct (is_environment e); [destruct (m_environment s) eqn:Hm|];
      simpl; intros [= <-]; simpl; rewrite ?Hm;
      destruct (m_integrator s), (m_environment s); auto.
  - intros [= <-]; simpl. destruct (m_integrator s), (m_environment s); auto.
  - destruct (m_integrator s) eqn:Hm; simpl; intros [= <-]; simpl.
    destruct (m_environment s); auto.
  - intros [= <-]; simpl. destruct (m_integrator s), (m_environment s); auto.
Qed.

Lemma add_objects_pointers (l : list (string * Object)) (s s' : Scene) :
  add_objects l s = inr s' ->
  m_integrator s' = match m_integrator s with
                    | Some i => Some i
                    | None => hd_error (integrators_of l)
                    end /\
  m_environment s' = match m_environment s with
                     | Some e => Some e
                     | None => hd_error (environments_of l)
                     end.
Proof.
  revert s. induction l as [|kv l IH]; intros s H; simpl in H.
  - injection H as <-. simpl. destruct (m_integrator s), (m_environment s); auto.
  - destruct (add_object s kv) as [e|s1] eqn:Hk; simpl in H; [discriminate|].
    destruct (add_object_pointers s s1 kv Hk) as [Hi He].
    destruct (IH s1 H) as [Hi' He']. rewrite Hi', He', Hi, He.
    unfold integrators_of, environments_of. simpl.
    split.
    + destruct (m_integrator s); [reflexivity|].
      destruct (as_integrator (snd kv)); reflexivity.
    + destruct (m_environment s); [reflexivity|].
      destruct (environment_of_object (snd kv)); reflexivity.
Qed.

(** The two single-object members of a constructed scene. *)
Lemma Scene_ctor_pointers (cfg : Config) (props : list (string * Object)) (s : Scene) :
  Scene_ctor (FT := FT) cfg props = inr s ->
  m_integrator s = Some (match hd_error (integrators_of props) with
                         | Some i => i
                         | None => default_integrator
                         end) /\
  m_environment s = hd_error (environments_of props).
Proof.
  unfold Scene_ctor, accel_init_gpu, accel_init_cpu.
  destruct (add_objects props Scene_initial) as [e|s1] eqn:H; simpl; [discriminate|].
  apply add_objects_pointers in H. simpl in H. destruct H as [Hi He].
  destruct (is_cuda_array cfg), (accel_supported cfg); simpl; try discriminate;
    intros [= <-];
    destruct (m_sensors s1); simpl; destruct (m_integrator s1) eqn:Hm; simpl;
    rewrite ?Hm, <- Hi, <- He; simpl; split; reflexivity.
Qed.

(** X5. A constructed scene always has a sensor and an integrator. *)
Theorem constructed_scene_has_sensor_and_integrator
  (cfg : Config) (props : list (string * Object)) (s : Scene) :
  Scene_ctor (FT := FT) cfg props = inr s ->
  m_sensors s <> [] /\ m_integrator s <> None.
Proof.
  intros Hs. split.
  - destruct (Scene_ctor_success cfg props s Hs) as (_ & _ & _ & Hsen & _).
    rewrite Hsen. destruct (sensors_of props); simpl; discriminate.
  - destruct (Scene_ctor_pointers cfg props s Hs) as [Hi _]. rewrite Hi. discriminate.
Qed.

(** X6. The integrator of a constructed scene is the one the collection
    holds, and the path tracer of lines 82-83 exactly when it holds none. *)
Theorem constructed_scene_integrator
  (cfg : Config) (props : list (string * Object)) (s : Scene) :
  Scene_ctor (FT := FT) cfg props = inr s ->
  (count_integrators props = 0 -> m_integrator s = Some default_integrator) /\
  (forall name i, In (name, ObjIntegrator i) props -> m_integrator s = Some i).
Proof.
  intros Hs. destruct (Scene_ctor_pointers cfg props s Hs) as [Hi _].
  assert (Hlen : List.length (integrators_of props) = count_integrators props).
  { clear. induction props as [|kv l IH]; [reflexivity|].
    rewrite count_integrators_cons. unfold integrators_of in *. simpl.
    rewrite length_app, IH. unfold is_integrator.
    destruct (as_integrator (snd kv)); reflexivity. }
  assert (Hone : count_integrators props <= 1).
  { destruct (proj1 (Scene_ctor_succeeds_iff cfg props) (ex_intro _ s Hs)) as [[s1 Hs1] _].
    apply add_objects_counts in Hs1. simpl in Hs1. lia. }
  split.
  - intros H0. rewrite Hi. rewrite H0 in Hlen.
    destruct (integrators_of props); [reflexivity | discriminate].
  - intros name i Hin. rewrite Hi.
    assert (Hmem : In i (integrators_of props)).
    { unfold integrators_of. apply in_flat_map. exists (name, ObjIntegrator i).
      split; [exact Hin | simpl; auto]. }
    destruct (integrators_of props) as [|i0 [|i1 rest]]; simpl in *.
    + contradiction.
    + destruct Hmem as [->|[]]. reflexivity.
    + lia.
Qed.

Lemma environments_of_spec (props : list (string * Object)) (e : Emitter) :
  In e (environments_of props) ->
  is_environment e = true /\ In e (emitters_of props) /\
  exists name, In (name, ObjEmitter e) props.
Proof.
  unfold environments_of, emitters_of. intros H.
  apply in_flat_map in H. destruct H as ([name o] & Hin & He).
  unfold environment_of_object in He. simpl in He.
  destruct o as [shape|e'|sensor|integ|descr]; simpl in He; try contradiction.
  destruct (is_environment e') eqn:Hf; simpl in He; [|contradiction].
  destruct He as [->|[]]. split; [exact Hf|]. split.
  - apply in_flat_map. exists (name, ObjEmitter e). split; [exact Hin | simpl; auto].
  - exists name. exact Hin.
Qed.

(** X7. The environment emitter of a constructed scene, when there is one,
    is an emitter object of the collection that carries the flag, and it is
    also in the scene's emitter list; the scene has one exactly when the
    collection holds one. *)
Theorem constructed_scene_environment
  (cfg : Config) (props : list (string * Object)) (s : Scene) :
  Scene_ctor (FT := FT) cfg props = inr s ->
  (forall e, m_environment s = Some e ->
     is_environment e = true /\ In e (m_emitters s) /\
     exists name, In (name, ObjEmitter e) props) /\
  (m_environment s <> None <-> count_environment props = 1).
Proof.
  intros Hs. destruct (Scene_ctor_pointers cfg props s Hs) as [_ He].
  destruct (Scene_ctor_success cfg props s Hs) as (_ & _ & Hem & _).
  split.
  - intros e H. rewrite He in H. rewrite Hem.
    apply environments_of_spec.
    destruct (environments_of props); simpl in H; [discriminate|].
    injection H as ->. left. reflexivity.
  - destruct (proj1 (Scene_ctor_succeeds_iff cfg props) (ex_intro _ s Hs)) as [[s1 Hs1] _].
    pose proof (add_objects_members props Scene_initial s1 Hs1)
      as (_ & _ & _ & _ & Hc & _).
    apply add_objects_pointers in Hs1. simpl in Hs1, Hc. destruct Hs1 as [_ He1].
    rewrite He, <- He1. rewrite set_count_pos.
    pose proof (set_count_le (m_environment s1)). lia.
Qed.

(** X8. When the collection registers a sensor, standalone or carried by a
    shape, the scene's sensors are exactly the registered ones, in the
    order of the objects, and no camera is created. *)
Theorem registered_sensors_are_kept
  (cfg : Config) (props : list (string * Object)) (s : Scene) :
  Scene_ctor (FT := FT) cfg props = inr s ->
  sensors_of props <> [] ->
  m_sensors s = sensors_of props /\
  forall sensor, In sensor (m_sensors s) <->
    exists name o, In (name, o) props /\
      (o = ObjSensor sensor \/
       exists shape, o = ObjShape shape /\ shape_sensor shape = Some sensor).
Proof.
  intros Hs Hne.
  destruct (Scene_ctor_success cfg props s Hs) as (_ & _ & _ & Hsen & _).
  assert (Heq : m_sensors s = sensors_of props).
  { rewrite Hsen. destruct (sensors_of props); [congruence | reflexivity]. }
  split; [exact Heq|].
  intros sensor. rewrite Heq. unfold sensors_of. rewrite in_flat_map. split.
  - intros ([name o] & Hin & Hm). exists name, o. split; [exact Hin|].
    destruct o as [shape|e|sensor'|integ|descr]; simpl in Hm; try contradiction.
    + right. exists shape. split; [reflexivity|].
      destruct (shape_sensor shape); simpl in Hm; [|contradiction].
      destruct Hm as [->|[]]. reflexivity.
    + left. destruct Hm as [->|[]]. reflexivity.
  - intros (name & o & Hin & [->|(shape & -> & Hsh)]).
    + exists (name, ObjSensor sensor). split; [exact Hin | simpl; auto].
    + exists (name, ObjShape shape). split; [exact Hin|].
      simpl. rewrite Hsh. simpl. auto.
Qed.

(** X9. The emitter list of a constructed scene holds exactly the emitters
    the collection contributes, standalone or carried by a shape, in the
    order of the objects. *)
Theorem constructed_scene_emitters
  (cfg : Config) (props : list (string * Object)) (s : Scene) :
  Scene_ctor (FT := FT) cfg props = inr s ->
  m_emitters s = emitters_of props /\
  forall e, In e (m_emitters s) <->
    exists name o, In (name, o) props /\
      (o = ObjEmitter e \/
       exists shape, o = ObjShape shape /\ shape_emitter shape = Some e).
Proof.
  intros Hs.
  destruct (Scene_ctor_success cfg props s Hs) as (_ & _ & Hem & _).
  split; [exact Hem|].
  intros e. rewrite Hem. unfold emitters_of. rewrite in_flat_map. split.
  - intros ([name o] & Hin & Hm). exists name, o. split; [exact Hin|].
    destruct o as [shape|e'|sensor|integ|descr]; simpl in Hm; try contradiction.
    + right. exists shape. split; [reflexivity|].
      destruct (shape_emitter shape); simpl in Hm; [|contradiction].
      destruct Hm as [->|[]]. reflexivity.
    + left. destruct Hm as [->|[]]. reflexivity.
  - intros (name & o & Hin & [->|(shape & -> & Hsh)]).
    + exists (name, ObjEmitter e). split; [exact Hin | simpl; auto].
    + exists (name, ObjShape shape). split; [exact Hin|].
      simpl. rewrite Hsh. simpl. auto.
Qed.

(** X10. [children] of a constructed scene lists every object of the
    collection, whatever its kind, once and in the order of the
    collection. *)
Theorem children_are_the_objects
  (cfg : Config) (props : list (string * Object)) (s : Scene) :
  Scene_ctor (FT := FT) cfg props = inr s ->
  children s = map snd props /\
  List.length (children s) = List.length props /\
  forall k, nth_error (children s) k = option_map snd (nth_error props k).
Proof.
  intros Hs.
  destruct (Scene_ctor_success cfg props s Hs) as (_ & Hc & _).
  unfold children. rewrite Hc. split; [reflexivity|]. split.
  - apply length_map.
  - intros k. apply nth_error_map.
Qed.

Lemma bbox_of_without_shapes (props : list (string * Object)) (b : BoundingBox3f) :
  shapes_of props = [] -> bbox_of props b = b.
Proof.
  unfold shapes_of, bbox_of. revert b.
  induction props as [|kv l IH]; intros b H; simpl in *; [reflexivity|].
  destruct (as_shape (snd kv)); simpl in H; [discriminate|]. apply IH. exact H.
Qed.

(** X11. When no sensor was registered and the bounding box is not valid,
    as it is when the collection holds no shape, the camera that is created
    is a perspective camera with the field of view set and nothing else:
    no clip distance, no focus distance, no placement. *)
Theorem default_sensor_without_box
  (cfg : Config) (props : list (string * Object)) (s : Scene) :
  Scene_ctor (FT := FT) cfg props = inr s ->
  sensors_of props = [] ->
  (shapes_of props = [] -> m_bbox s = None) /\
  (m_bbox s = None ->
   exists sensor,
     m_sensors s = [sensor] /\
     plugin_name (sensor_props sensor) = "perspective" /\
     float_entries (sensor_props sensor) = [("fov", flit 45)] /\
     transform_entries (sensor_props sensor) = [] /\
     get_float "near_clip" (sensor_props sensor) = None /\
     get_float "far_clip" (sensor_props sensor) = None /\
     get_float "focus_distance" (sensor_props sensor) = None /\
     get_transform "to_world" (sensor_props sensor) = None).
Proof.
  intros Hs Hno.
  destruct (Scene_ctor_success cfg props s Hs) as (_ & _ & _ & Hsen & Hb & _).
  split.
  - intros Hsh. rewrite Hb. apply bbox_of_without_shapes. exact Hsh.
  - intros Hbox. rewrite Hno in Hsen. simpl in Hsen. rewrite <- Hb, Hbox in Hsen.
    eexists. split; [exact Hsen|]. repeat split.
Qed.

End Construction.

(** * Further properties of emitter sampling *)

Section Sampling.

Context {F : Type} {FO : FloatOps F}.
Context {Spectrum : Type} {SO : SpectrumOps F Spectrum}.
Context {Wavelength : Type}.
Context {SampleAux : Type} (aux_zero : SampleAux).
Context (Epsilon ShadowEpsilon : F).

Local Abbreviation Scene := (@Scene F Spectrum Wavelength SampleAux).
Local Abbreviation Emitter := (@Emitter F Spectrum Wavelength SampleAux).
Local Abbreviation Accel := (@Accel F Spectrum Wavelength SampleAux).
Local Abbreviation sample_emitter_direction :=
  (sample_emitter_direction aux_zero Epsilon ShadowEpsilon).
Local Abbreviation shadow_hit := (shadow_hit aux_zero Epsilon ShadowEpsilon).
Local Abbreviation emitter_sample := (emitter_sample aux_zero).
Local Abbreviation visibility_tested := (visibility_tested aux_zero).

(** X12. When the visibility test does not run - the flag is off, or on a
    CPU variant no lane of the packet is active with a nonzero pdf - the
    whole result is the same whatever geometry the backend holds, and on a
    scene with emitters the radiance is the emitter's, scaled. *)
Theorem untested_sample_ignores_geometry (cfg : Config) (s : Scene)
  (ref : Packet Interaction3f) (sample : Packet Point2) (tv : bool) (active : Mask) :
  visibility_tested cfg s ref sample tv active = false ->
  forall (a : Accel) (i : nat),
    fst (sample_emitter_direction cfg (set_accel s a) ref sample tv active) i
      = fst (sample_emitter_direction cfg s ref sample tv active) i /\
    snd (sample_emitter_direction cfg (set_accel s a) ref sample tv active) i
      = snd (sample_emitter_direction cfg s ref sample tv active) i /\
    (m_emitters s <> [] ->
     snd (sample_emitter_direction cfg s ref sample tv active) i
       = spec_scale (snd (emitter_sample s ref sample active i))
                    (frcp (selection_pdf s sample active i))).
Proof.
  intros Hv a i.
  destruct (m_emitters s) as [|e0 l] eqn:Hem.
  - rewrite !sample_emitter_direction_empty by exact Hem.
    repeat split. intros H. congruence.
  - assert (Hne : m_emitters s <> []) by (rewrite Hem; discriminate).
    assert (Hne' : m_emitters (set_accel s a) <> []) by exact Hne.
    destruct (sample_emitter_direction_steps aux_zero Epsilon ShadowEpsilon
                cfg s ref sample tv active i Hne) as [Hd Hs].
    destruct (sample_emitter_direction_steps aux_zero Epsilon ShadowEpsilon
                cfg (set_accel s a) ref sample tv active i Hne') as [Hd' Hs'].
    assert (Hv' : visibility_tested cfg (set_accel s a) ref sample tv active = false)
      by exact Hv.
    rewrite Hd, Hs, Hd', Hs', Hv, Hv'. simpl. repeat split.
Qed.



(** X14. On an active lane the direction, the distance and the auxiliary
    fields come back exactly as the selected emitter produced them - only
    the pdf is touched - and the emitter was handed the caller's second
    sample coordinate unchanged. *)
Theorem selected_emitter_sample_passes_through (cfg : Config) (s : Scene)
  (ref : Packet Interaction3f) (sample : Packet Point2) (tv : bool) (active : Mask)
  (i : nat) (e : Emitter) :
  m_emitters s <> [] ->
  active i = true ->
  nth_error (m_emitters s) (selected_index s sample active i) = Some e ->
  let own := fst (sample_direction e (ref i) (reused_sample s sample active i) true) in
  ds_d (fst (sample_emitter_direction cfg s ref sample tv active) i) = ds_d own /\
  ds_dist (fst (sample_emitter_direction cfg s ref sample tv active) i) = ds_dist own /\
  ds_aux (fst (sample_emitter_direction cfg s ref sample tv active) i) = ds_aux own /\
  p2_y (reused_sample s sample active i) = p2_y (sample i).
Proof.
  intros Hne Ha He own.
  destruct (sample_emitter_direction_steps aux_zero Epsilon ShadowEpsilon
              cfg s ref sample tv active i Hne) as [Hd _].
  rewrite Hd, (emitter_sample_active aux_zero s ref sample active i e Ha He).
  repeat split.
Qed.

End Sampling.

(** * Further properties over the reals *)

Section MoreOverTheReals.

Context {Spectrum Wavelength SampleAux : Type}.

Lemma hmax_abs_nonneg (p : @Point3 R) :
  (0 <= hmax (abs3 p) /\ Rabs (p3_x p) <= hmax (abs3 p) /\
   Rabs (p3_y p) <= hmax (abs3 p) /\ Rabs (p3_z p) <= hmax (abs3 p))%R.
Proof.
  unfold hmax, abs3. cbn [p3_x p3_y p3_z fmax fabs R_FloatOps].
  pose proof (Rabs_pos (p3_z p)).
  pose proof (Rmax_r (Rmax (Rabs (p3_x p)) (Rabs (p3_y p))) (Rabs (p3_z p))).
  pose proof (Rmax_l (Rmax (Rabs (p3_x p)) (Rabs (p3_y p))) (Rabs (p3_z p))).
  pose proof (Rmax_l (Rabs (p3_x p)) (Rabs (p3_y p))).
  pose proof (Rmax_r (Rabs (p3_x p)) (Rabs (p3_y p))).
  repeat split; lra.
Qed.

(** X15. With a positive [Epsilon], a [ShadowEpsilon] strictly between 0
    and 1 and a positive distance to the sampled point, the shadow ray
    leaves the reference point in the sampled direction, starts at least
    [Epsilon] away from it - and further the larger the coordinates of the
    reference point are - and ends strictly before the sampled point. *)
Theorem shadow_ray_stays_between (eps seps : R)
  (ref : @Interaction3f R Wavelength) (ds : @DirectionSample3f R SampleAux) :
  (0 < eps)%R -> (0 < seps < 1)%R -> (0 < ds_dist ds)%R ->
  let ray := shadow_ray eps seps ref ds in
  ray_o ray = it_p ref /\ ray_d ray = ds_d ds /\
  ray_time ray = it_time ref /\ ray_wavelengths ray = it_wavelengths ref /\
  (eps <= ray_mint ray)%R /\
  (eps * (1 + Rabs (p3_x (it_p ref))) <= ray_mint ray)%R /\
  (eps * (1 + Rabs (p3_y (it_p ref))) <= ray_mint ray)%R /\
  (eps * (1 + Rabs (p3_z (it_p ref))) <= ray_mint ray)%R /\
  (0 < ray_maxt ray < ds_dist ds)%R.
Proof.
  intros Heps Hseps Hdist ray.
  destruct Q2R_literals as (_ & L1 & _).
  destruct (hmax_abs_nonneg (it_p ref)) as (H0 & Hx & Hy & Hz).
  unfold ray, shadow_ray. cbn [ray_o ray_d ray_time ray_wavelengths ray_mint ray_maxt].
  cbn [fmul fadd fsub flit R_FloatOps]. rewrite L1.
  set (m := hmax (abs3 (it_p ref))) in *.
  repeat split; try nra.
Qed.

(** X16. With one colour channel over the reals: on a lane whose selection
    probability is not zero and whose radiance was not zeroed by the
    visibility test, the product of the returned radiance and the returned
    pdf is the product of the emitter's radiance and the emitter's pdf -
    lines 170-171 move the selection probability from one factor to the
    other. *)
Theorem selection_keeps_radiance_times_pdf (aux_zero : SampleAux) (eps seps : R)
  (cfg : Config) (s : @Scene R R Wavelength SampleAux)
  (ref : Packet Interaction3f) (sample : Packet Point2) (tv : bool) (active : Mask)
  (i : nat) :
  m_emitters s <> [] ->
  selection_pdf s sample active i <> 0%R ->
  visibility_tested aux_zero cfg s ref sample tv active
    && shadow_hit aux_zero eps seps cfg s ref sample active i = false ->
  (snd (sample_emitter_direction aux_zero eps seps cfg s ref sample tv active) i
   * ds_pdf (fst (sample_emitter_direction aux_zero eps seps cfg s ref sample tv active) i))%R
  = (snd (emitter_sample aux_zero s ref sample active i)
     * ds_pdf (fst (emitter_sample aux_zero s ref sample active i)))%R.
Proof.
  intros Hne Hp Hv.
  destruct (sample_emitter_direction_steps aux_zero eps seps cfg s ref sample tv active i Hne)
    as [Hd Hs].
  rewrite Hd, Hs, Hv.
  cbn [set_pdf ds_pdf spec_scale Mono_SpectrumOps fmul frcp R_FloatOps].
  field. exact Hp.
Qed.

(** The entries of the camera created for a valid box, over the reals. *)
Lemma default_sensor_props_entries (lo hi : @Point3 R) :
  let extent_z := (p3_z hi - p3_z lo)%R in
  let extent_max :=
    Rmax (Rmax (p3_x hi - p3_x lo) (p3_y hi - p3_y lo)) (p3_z hi - p3_z lo) in
  let d := (extent_max / (2 * tan (22.5 * PI / 180)))%R in
  let props := default_sensor_props (Some (lo, hi)) in
  get_float "near_clip" props = Some (d / 100)%R /\
  get_float "far_clip" props = Some (extent_max * 5 + d)%R /\
  get_float "focus_distance" props = Some (d + extent_z / 2)%R /\
  exists eye, get_transform "to_world" props = Some (translate eye) /\
              p3_x eye = ((p3_x hi + p3_x lo) / 2)%R /\
              p3_y eye = ((p3_y hi + p3_y lo) / 2)%R /\
              p3_z eye = (p3_z lo - d)%R.
Proof.
  intros extent_z extent_max d props.
  destruct Q2R_literals as (L0 & L1 & L2 & L5 & L45 & L100 & L180 & Lhalf).
  assert (Hd : (hmax (bbox_extents (lo, hi)) /
                (Q2R 2 * tan (Q2R 45 * Q2R (1 # 2) * PI / Q2R 180)))%R = d).
  { unfold d, extent_max, hmax, bbox_extents. simpl.
    rewrite L2. f_equal. f_equal. f_equal. rewrite L45, L180, Lhalf. lra. }
  unfold hmax, bbox_extents in Hd. simpl in Hd.
  unfold props, default_sensor_props, get_float, get_transform. simpl.
  rewrite !Hd, L100, L5, L2, Lhalf.
  split; [reflexivity|]. split; [reflexivity|]. split; [reflexivity|].
  eexists. split; [reflexivity|]. simpl. repeat split; lra.
Qed.

(** X17. The camera created for a valid box that has some extent sees the
    whole box, as the comment of lines 58-59 promises: it looks from a
    point centred on the box in [x] and [y] and in front of it in [z]; the
    near plane lies between the camera and the front face, the far plane
    behind the back face; the focus distance is the depth of the centre of
    the box; and at the front face the half-angle of 22.5 degrees spans
    exactly the largest extent of the box. *)
Theorem default_sensor_sees_the_box (cfg : Config)
  (props : list (string * @Object R Spectrum Wavelength SampleAux))
  (s : @Scene R Spectrum Wavelength SampleAux) (lo hi : @Point3 R) :
  Scene_ctor cfg props = inr s ->
  sensors_of props = [] ->
  m_bbox s = Some (lo, hi) ->
  (p3_z lo <= p3_z hi)%R ->
  (0 < Rmax (Rmax (p3_x hi - p3_x lo) (p3_y hi - p3_y lo)) (p3_z hi - p3_z lo))%R ->
  exists sensor near far focus eye,
    m_sensors s = [sensor] /\
    get_float "near_clip" (sensor_props sensor) = Some near /\
    get_float "far_clip" (sensor_props sensor) = Some far /\
    get_float "focus_distance" (sensor_props sensor) = Some focus /\
    get_transform "to_world" (sensor_props sensor) = Some (translate eye) /\
    p3_x eye = ((p3_x hi + p3_x lo) / 2)%R /\
    p3_y eye = ((p3_y hi + p3_y lo) / 2)%R /\
    (p3_z eye < p3_z lo)%R /\
    (0 < near < p3_z lo - p3_z eye)%R /\
    (p3_z hi - p3_z eye < far)%R /\
    focus = ((p3_z hi + p3_z lo) / 2 - p3_z eye)%R /\
    (2 * (p3_z lo - p3_z eye) * tan (22.5 * PI / 180))%R
      = Rmax (Rmax (p3_x hi - p3_x lo) (p3_y hi - p3_y lo)) (p3_z hi - p3_z lo).
Proof.
  intros Hs Hno Hbox Hz Hmax.
  destruct (Scene_ctor_success cfg props s Hs) as (_ & _ & _ & Hsen & Hb & _).
  rewrite Hno in Hsen. simpl in Hsen. rewrite <- Hb, Hbox in Hsen.
  destruct (default_sensor_props_entries lo hi)
    as (Hnear & Hfar & Hfocus & eye & Hto & Hx & Hy & Hez).
  set (M := Rmax (Rmax (p3_x hi - p3_x lo) (p3_y hi - p3_y lo)) (p3_z hi - p3_z lo)) in *.
  assert (HzM : (p3_z hi - p3_z lo <= M)%R) by apply Rmax_r.
  assert (Ht : (0 < tan (22.5 * PI / 180))%R).
  { pose proof PI_RGT_0. apply tan_gt_0; lra. }
  set (t := tan (22.5 * PI / 180)) in *.
  assert (Hd : (0 < M / (2 * t))%R) by (apply Rdiv_lt_0_compat; lra).
  assert (Hdt : (2 * (M / (2 * t)) * t = M)%R) by (field; lra).
  set (d := (M / (2 * t))%R) in *.
  exists (create_sensor (default_sensor_props (Some (lo, hi)))),
    (d / 100)%R, (M * 5 + d)%R, (d + (p3_z hi - p3_z lo) / 2)%R, eye.
  split; [exact Hsen|]. split; [exact Hnear|]. split; [exact Hfar|].
  split; [exact Hfocus|]. split; [exact Hto|]. split; [exact Hx|]. split; [exact Hy|].
  rewrite Hez. repeat split; lra.
Qed.

End MoreOverTheReals.

(** * The loop is incremental; when the visibility test runs *)

Section Incremental.

Context {F : Type} {FO : FloatOps F}.
Context {Spectrum : Type} {SO : SpectrumOps F Spectrum}.
Context {Wavelength : Type}.
Context {SampleAux : Type} (aux_zero : SampleAux).
Context {FT : FloatTrig F}.

Local Abbreviation Scene := (@Scene F Spectrum Wavelength SampleAux).
Local Abbreviation Object := (@Object F Spectrum Wavelength SampleAux).
Local Abbreviation tested_lanes := (tested_lanes aux_zero).
Local Abbreviation visibility_tested := (visibility_tested aux_zero).
Local Abbreviation emitter_sample := (emitter_sample aux_zero).

(** X18. The constructor takes the objects one after the other: once a
    leading part of the collection makes the loop throw, that error is the
    constructor's, whatever follows; and a collection that constructs has
    every leading part pass the loop, the scene's emitters, sensors and
    children extending what that part registered. *)
Theorem Scene_ctor_is_incremental (cfg : Config)
  (before after : list (string * Object)) :
  (forall e, add_objects before Scene_initial = inl e ->
     Scene_ctor (FT := FT) cfg (before ++ after) = inl e) /\
  (forall s, Scene_ctor (FT := FT) cfg (before ++ after) = inr s ->
     exists s1, add_objects before Scene_initial = inr s1 /\
       m_emitters s = m_emitters s1 ++ emitters_of after /\
       children s = children s1 ++ map snd after /\
       (sensors_of (before ++ after) <> [] ->
        m_sensors s = m_sensors s1 ++ sensors_of after)).
Proof.
  split.
  - intros e He. apply Scene_ctor_loop_error. rewrite add_objects_app, He. reflexivity.
  - intros s Hs.
    destruct (add_objects before Scene_initial) as [e|s1] eqn:Hb.
    + rewrite (Scene_ctor_loop_error cfg (before ++ after) e) in Hs; [discriminate|].
      rewrite add_objects_app, Hb. reflexivity.
    + exists s1. split; [reflexivity|].
      destruct (Scene_ctor_success cfg _ s Hs) as (_ & Hc & He & Hsen & _).
      apply add_objects_members in Hb. simpl in Hb.
      destruct Hb as (Hc1 & He1 & Hs1 & _).
      assert (Hea : emitters_of (before ++ after)
                    = emitters_of before ++ emitters_of after)
        by (unfold emitters_of; apply flat_map_app).
      assert (Hsa : sensors_of (before ++ after)
                    = sensors_of before ++ sensors_of after)
        by (unfold sensors_of; apply flat_map_app).
      split; [rewrite He, He1, Hea; reflexivity|].
      split; [unfold children; rewrite Hc, Hc1, map_app; reflexivity|].
      intros Hne. rewrite Hsen, Hs1, <- Hsa.
      destruct (sensors_of (before ++ after)); [congruence | reflexivity].
Qed.


End Incremental.

(** * The further properties at work *)

Section MoreRuns.

Local Abbreviation q_sample_emitter_direction :=
  (sample_emitter_direction (F := Q) tt q_epsilon q_shadow_epsilon q_config).
Local Abbreviation r_sample_emitter_direction :=
  (sample_emitter_direction (F := R) tt r_epsilon r_shadow_epsilon r_config).

(** The studio: the camera object and the panel's camera are kept, the
    panel's lamp is the only emitter, the note is a child like the others. *)
Example studio_members :
  exists s, Scene_ctor r_config r_studio = inr s /\
    m_sensors s = [r_eye; r_camera] /\
    m_emitters s = [r_lamp_b] /\
    m_environment s = None /\
    m_integrator s = Some default_integrator /\
    List.length (children s) = 3.
Proof. eexists. split; [reflexivity|]. cbn. auto 6. Qed.

(** Witness of X1. *)
Lemma second_integrator_is_fatal_witness :
  2 <= count_integrators r_two_integrators /\
  Scene_ctor r_config r_two_integrators = inl integrator_error.
Proof.
  assert (H : 2 <= count_integrators r_two_integrators) by apply le_n.
  split; [exact H|].
  exact (proj2 (second_integrator_is_fatal r_config r_two_integrators H) (le_0_n 1)).
Defined.

(** Witness of X2. *)
Lemma environment_error_when_integrators_fit_witness :
  2 <= count_environment r_two_skies /\
  Scene_ctor r_config r_two_skies = inl environment_error.
Proof.
  split; [apply le_n|].
  exact (environment_error_when_integrators_fit r_config r_two_skies (le_n 2) (le_0_n 1)).
Defined.

(** Witness of X3. *)
Lemma Scene_ctor_succeeds_exactly_when_witness :
  accel_supported r_config = true /\
  exists s, Scene_ctor r_config r_studio = inr s.
Proof.
  split; [reflexivity|].
  apply (proj2 (Scene_ctor_succeeds_exactly_when r_config r_studio eq_refl)).
  split; apply le_0_n.
Defined.

(** Witness of X4: the lamp and the wall, in either order. *)
Lemma Scene_ctor_success_ignores_order_witness :
  Permutation r_lamp_behind_wall r_wall_before_lamp /\
  exists s', Scene_ctor r_config r_wall_before_lamp = inr s'.
Proof.
  assert (Hp : Permutation r_lamp_behind_wall r_wall_before_lamp) by apply perm_swap.
  split; [exact Hp|].
  apply (proj1 (Scene_ctor_success_ignores_order r_config _ _ Hp)).
  exists (constructed r_config r_lamp_behind_wall). reflexivity.
Defined.

(** Witness of X5. *)
Lemma constructed_scene_has_sensor_and_integrator_witness :
  m_sensors (constructed r_config r_two_lamps) <> [] /\
  m_integrator (constructed r_config r_two_lamps) <> None.
Proof.
  exact (constructed_scene_has_sensor_and_integrator r_config r_two_lamps
           (constructed r_config r_two_lamps) eq_refl).
Defined.

(** Witness of X6. *)
Lemma constructed_scene_integrator_witness :
  m_integrator (constructed r_config r_box_with_integrator) = Some r_direct /\
  m_integrator (constructed r_config r_two_lamps) = Some default_integrator.
Proof.
  split.
  - apply (proj2 (constructed_scene_integrator r_config r_box_with_integrator
                    (constructed r_config r_box_with_integrator) eq_refl) "direct").
    left. reflexivity.
  - apply (proj1 (constructed_scene_integrator r_config r_two_lamps
                    (constructed r_config r_two_lamps) eq_refl)).
    reflexivity.
Defined.

(** Witness of X7. *)
Lemma constructed_scene_environment_witness :
  count_environment r_sky_and_lamp = 1 /\
  m_environment (constructed r_config r_sky_and_lamp) <> None.
Proof.
  split; [reflexivity|].
  apply (proj2 (constructed_scene_environment r_config r_sky_and_lamp
                  (constructed r_config r_sky_and_lamp) eq_refl)).
  reflexivity.
Defined.

(** Witness of X8. *)
Lemma registered_sensors_are_kept_witness :
  sensors_of r_studio <> [] /\
  m_sensors (constructed r_config r_studio) = sensors_of r_studio.
Proof.
  assert (Hne : sensors_of r_studio <> []) by discriminate.
  split; [exact Hne|].
  exact (proj1 (registered_sensors_are_kept r_config r_studio
                  (constructed r_config r_studio) eq_refl Hne)).
Defined.

(** Witness of X9. *)
Lemma constructed_scene_emitters_witness :
  m_emitters (constructed r_config r_studio) = emitters_of r_studio.
Proof.
  exact (proj1 (constructed_scene_emitters r_config r_studio
                  (constructed r_config r_studio) eq_refl)).
Defined.

(** Witness of X10. *)
Lemma children_are_the_objects_witness :
  children (constructed r_config r_studio) = map snd r_studio.
Proof.
  exact (proj1 (children_are_the_objects r_config r_studio
                  (constructed r_config r_studio) eq_refl)).
Defined.

(** Witness of X11: two lamps, no shape and no sensor. *)
Lemma default_sensor_without_box_witness :
  shapes_of r_two_lamps = [] /\
  exists sensor,
    m_sensors (constructed r_config r_two_lamps) = [sensor] /\
    float_entries (sensor_props sensor) = [("fov", Q2R 45)] /\
    get_transform "to_world" (sensor_props sensor) = None.
Proof.
  split; [reflexivity|].
  destruct (default_sensor_without_box r_config r_two_lamps
              (constructed r_config r_two_lamps) eq_refl eq_refl) as [Hbox Hcam].
  destruct (Hcam (Hbox eq_refl)) as (sensor & H1 & _ & H3 & _ & _ & _ & _ & H8).
  exists sensor. split; [exact H1|]. split; [exact H3 | exact H8].
Defined.

(** Witness of X12: visibility not requested, the wall taken away. *)
Lemma untested_sample_ignores_geometry_witness :
  snd (q_sample_emitter_direction (set_accel q_scene (mkAccel [])) q_ref q_sample
         false all_lanes) 0
  = snd (q_sample_emitter_direction q_scene q_ref q_sample false all_lanes) 0.
Proof.
  exact (proj1 (proj2 (untested_sample_ignores_geometry tt q_epsilon q_shadow_epsilon
                         q_config q_scene q_ref q_sample false all_lanes eq_refl
                         (mkAccel []) 0))).
Defined.


(** Witness of X14: lane 0 selects the first lamp. *)
Lemma selected_emitter_sample_passes_through_witness :
  ds_d (fst (q_sample_emitter_direction q_scene q_ref q_sample true all_lanes) 0)
    = mkPoint3 0%Q 0%Q 1%Q /\
  ds_dist (fst (q_sample_emitter_direction q_scene q_ref q_sample true all_lanes) 0) = 2%Q.
Proof.
  assert (Hne : m_emitters q_scene <> []) by discriminate.
  assert (He : nth_error (m_emitters q_scene) (selected_index q_scene q_sample all_lanes 0)
               = Some q_lamp_a) by reflexivity.
  destruct (selected_emitter_sample_passes_through tt q_epsilon q_shadow_epsilon q_config
              q_scene q_ref q_sample true all_lanes 0 q_lamp_a Hne eq_refl He)
    as (Hd & Hdist & _).
  split; [exact Hd | exact Hdist].
Defined.

(** Witness of X15. *)
Lemma shadow_ray_stays_between_witness :
  (r_epsilon <= ray_mint (shadow_ray r_epsilon r_shadow_epsilon (r_ref 0%nat) r_toward_lamp))%R /\
  (0 < ray_maxt (shadow_ray r_epsilon r_shadow_epsilon (r_ref 0%nat) r_toward_lamp) < 2)%R.
Proof.
  assert (H1 : (0 < r_epsilon)%R) by (unfold r_epsilon; lra).
  assert (H2 : (0 < r_shadow_epsilon < 1)%R) by (unfold r_shadow_epsilon; lra).
  assert (H3 : (0 < ds_dist r_toward_lamp)%R) by (cbn [ds_dist r_toward_lamp]; lra).
  destruct (shadow_ray_stays_between r_epsilon r_shadow_epsilon (r_ref 0) r_toward_lamp
              H1 H2 H3) as (_ & _ & _ & _ & Hmin & _ & _ & _ & Hmax).
  split; [exact Hmin | exact Hmax].
Defined.

(** Witness of X16: one lamp, visibility not requested. *)
Lemma selection_keeps_radiance_times_pdf_witness :
  selection_pdf (constructed r_config r_lamp_behind_wall) r_sample all_lanes 0 <> 0%R /\
  (snd (r_sample_emitter_direction (constructed r_config r_lamp_behind_wall)
          r_ref r_sample false all_lanes) 0%nat
   * ds_pdf (fst (r_sample_emitter_direction (constructed r_config r_lamp_behind_wall)
                    r_ref r_sample false all_lanes) 0%nat))%R
  = (snd (emitter_sample tt (constructed r_config r_lamp_behind_wall)
            r_ref r_sample all_lanes 0%nat)
     * ds_pdf (fst (emitter_sample tt (constructed r_config r_lamp_behind_wall)
                      r_ref r_sample all_lanes 0%nat)))%R.
Proof.
  assert (Hne : m_emitters (constructed r_config r_lamp_behind_wall) <> [])
    by discriminate.
  assert (Hp : selection_pdf (constructed r_config r_lamp_behind_wall)
                             r_sample all_lanes 0 <> 0%R).
  { unfold selection_pdf, sample_reuse_pdf, distr_sample. cbn [fst snd].
    change (distr_size (m_emitter_distr (constructed r_config r_lamp_behind_wall)) - 1)
      with 0.
    rewrite Nat.min_0_r.
    change (m_emitter_distr (constructed r_config r_lamp_behind_wall))
      with (emitter_distribution (F := R) 1).
    rewrite emitter_distribution_pdf by apply le_n.
    change (INR 1) with 1%R. lra. }
  split; [exact Hp|].
  exact (selection_keeps_radiance_times_pdf tt r_epsilon r_shadow_epsilon r_config
           (constructed r_config r_lamp_behind_wall) r_ref r_sample false all_lanes 0
           Hne Hp eq_refl).
Defined.

(** Witness of X17: the box from [-1, -1, -1] to [1, 1, 1]. *)
Lemma default_sensor_sees_the_box_witness :
  exists sensor near far,
    m_sensors (constructed r_config r_unit_box) = [sensor] /\
    get_float "near_clip" (sensor_props sensor) = Some near /\
    get_float "far_clip" (sensor_props sensor) = Some far /\
    (0 < near < far)%R.
Proof.
  assert (Hz : (p3_z (mkPoint3 (-1) (-1) (-1)) <= p3_z (mkPoint3 1 1 1))%R)
    by (cbn [p3_z]; lra).
  assert (Hmax : (0 < Rmax (Rmax (p3_x (mkPoint3 1 1 1) - p3_x (mkPoint3 (-1) (-1) (-1)))
                                 (p3_y (mkPoint3 1 1 1) - p3_y (mkPoint3 (-1) (-1) (-1))))
                           (p3_z (mkPoint3 1 1 1) - p3_z (mkPoint3 (-1) (-1) (-1))))%R).
  { cbn [p3_x p3_y p3_z]. unfold Rmax. repeat destruct Rle_dec; lra. }
  destruct (default_sensor_sees_the_box r_config r_unit_box
              (constructed r_config r_unit_box)
              (mkPoint3 (-1) (-1) (-1))%R (mkPoint3 1 1 1)%R eq_refl eq_refl eq_refl Hz Hmax)
    as (sensor & near & far & focus & eye & Hs & Hn & Hf & _ & _ & _ & _ & _ & Hnear
        & Hfar & _).
  cbn [p3_z] in Hnear, Hfar.
  exists sensor, near, far.
  split; [exact Hs|]. split; [exact Hn|]. split; [exact Hf|]. lra.
Defined.

End MoreRuns.
